(** * Comment access layer and slug endpoint of the prediction-market web app

    A shallow embedding of [web/lib/firebase/comments.ts] and of
    [web/pages/api/v0/slug/[slug].ts].

    The code is asynchronous TypeScript over a document store.  Promises are
    modelled by a state-and-rejection monad over a [World]; JavaScript
    objects by ordered property lists; the document store by a finite map
    from document paths to objects together with the store's query
    semantics. *)

From Stdlib Require Import ZArith Lia.
From stdpp Require Import gmap strings list sorting.

Set Warnings "-register-all,-clear-no-such-hyp".

Local Open Scope Z_scope.
Local Open Scope string_scope.
Local Open Scope list_scope.

(** ** Comparison functions *)

(** Lexicographic combination: the second comparison decides ties of the
    first. *)
Definition lexc (c d : comparison) : comparison :=
  match c with Eq => d | _ => c end.

Class Comparator {A : Type} (cmp : A → A → comparison) : Prop := {
  cmp_antisym : ∀ x y, cmp y x = CompOpp (cmp x y);
  cmp_trans : ∀ c x y z, cmp x y = c → cmp y z = c → cmp x z = c
}.

Definition cmp_le {A : Type} (cmp : A → A → comparison) : relation A :=
  λ x y, cmp x y ≠ Gt.

Definition comparison_eq_dec (c d : comparison) : {c = d} + {c ≠ d}.
Proof. decide equality. Defined.

#[global] Instance comparison_eq_decision : EqDecision comparison :=
  comparison_eq_dec.

#[global] Instance cmp_le_dec {A} (cmp : A → A → comparison) (x y : A) :
  Decision (cmp_le cmp x y).
Proof. unfold cmp_le. apply _. Defined.

(** ** JavaScript values and objects *)

(** A JavaScript value as far as this code handles one.  Numbers are the
    integer-valued ones (identifiers, counts, epoch milliseconds).  An
    object is its list of own properties in insertion order. *)
Inductive value : Type :=
  | VUndefined
  | VNull
  | VBool (b : bool)
  | VNum (z : Z)
  | VStr (s : string)
  | VArr (items : list value)
  | VObj (props : list (string * value)).

Definition object : Type := list (string * value).

(** Own-property lookup. *)
Fixpoint obj_lookup (k : string) (o : object) : option value :=
  match o with
  | [] => None
  | (k', v) :: o' => if String.eqb k k' then Some v else obj_lookup k o'
  end.

(** Property read [o.k]: a missing property reads as [undefined]. *)
Definition obj_get (k : string) (o : object) : value :=
  match obj_lookup k o with Some v => v | None => VUndefined end.

(** Property write [o[k] = v]: an existing key keeps its place. *)
Fixpoint obj_set (k : string) (v : value) (o : object) : object :=
  match o with
  | [] => [(k, v)]
  | (k', v') :: o' =>
      if String.eqb k k' then (k, v) :: o' else (k', v') :: obj_set k v o'
  end.

(** Object spread [{ ...base, ...extra }]: the properties of [extra] are
    assigned onto [base] in order, later ones winning. *)
Definition obj_spread (base extra : object) : object :=
  fold_left (λ acc kv, obj_set kv.1 kv.2 acc) extra base.

(** An object literal [{ k1: v1, ..., kn: vn }]. *)
Definition obj_literal (props : list (string * value)) : object :=
  obj_spread [] props.

Definition is_undefined (v : value) : bool :=
  match v with VUndefined => true | _ => false end.

(** Structural equality of values. *)
Fixpoint value_eqb (a b : value) {struct a} : bool :=
  match a, b with
  | VUndefined, VUndefined => true
  | VNull, VNull => true
  | VBool x, VBool y => Bool.eqb x y
  | VNum x, VNum y => Z.eqb x y
  | VStr x, VStr y => String.eqb x y
  | VArr xs, VArr ys =>
      (fix go (xs ys : list value) : bool :=
         match xs, ys with
         | [], [] => true
         | x :: xs', y :: ys' => value_eqb x y && go xs' ys'
         | _, _ => false
         end) xs ys
  | VObj xs, VObj ys =>
      (fix go (xs ys : list (string * value)) : bool :=
         match xs, ys with
         | [], [] => true
         | (k, x) :: xs', (k', y) :: ys' =>
             String.eqb k k' && value_eqb x y && go xs' ys'
         | _, _ => false
         end) xs ys
  | _, _ => false
  end.

(** An optional string argument ([x?: string]): omitted is [undefined]. *)
Definition opt_str (o : option string) : value :=
  match o with Some s => VStr s | None => VUndefined end.

Definition opt_bool (o : option bool) : value :=
  match o with Some b => VBool b | None => VUndefined end.

(** JavaScript truthiness of a number: every number but zero. *)
Definition truthy (n : Z) : bool := negb (Z.eqb n 0).

(** Modelled from the spec: [removeUndefinedProps] of [common/util/object],
    which is not among the sources: "stripping any field whose value is
    undefined".  The other properties keep their order. *)
Definition removeUndefinedProps (o : object) : object :=
  List.filter (λ kv, negb (is_undefined kv.2)) o.

(** ** The document store *)

(** A document or collection path, one identifier per segment. *)
Abbreviation Path := (list string) (only parsing).

Inductive Direction : Type := Asc | Desc.

Inductive WhereOp : Type := OpEq | OpGt.

Inductive QueryConstraint : Type :=
  | CWhere (field : string) (op : WhereOp) (v : value)
  | COrderBy (field : string) (dir : Direction)
  | CLimit (n : Z).

Inductive Source : Type :=
  | Collection (p : Path)
  | CollectionGroup (collectionId : string).

Record Query : Type := mkQuery {
  q_source : Source;
  q_filters : list (string * WhereOp * value);
  q_orders : list (string * Direction);
  q_limit : option Z
}.

Definition collection (segments : Path) : Query :=
  mkQuery (Collection segments) [] [] None.

Definition collectionGroup (collectionId : string) : Query :=
  mkQuery (CollectionGroup collectionId) [] [] None.

Definition where_ (field : string) (op : WhereOp) (v : value) : QueryConstraint :=
  CWhere field op v.

Definition orderBy (field : string) (dir : Direction) : QueryConstraint :=
  COrderBy field dir.

Definition add_constraint (q : Query) (c : QueryConstraint) : Query :=
  match c with
  | CWhere f op v =>
      mkQuery (q_source q) (q_filters q ++ [(f, op, v)]) (q_orders q) (q_limit q)
  | COrderBy f d =>
      mkQuery (q_source q) (q_filters q) (q_orders q ++ [(f, d)]) (q_limit q)
  | CLimit n =>
      mkQuery (q_source q) (q_filters q) (q_orders q) (Some n)
  end.

(** [query(q, c1, ..., cn)]. *)
Definition query (q : Query) (cs : list QueryConstraint) : Query :=
  fold_left add_constraint cs q.

(** The store's order on values of any type: first by type, then within the
    type.  Arrays and maps are not used as sort keys by this code and
    compare as equal among themselves. *)
Definition type_order (v : value) : nat :=
  match v with
  | VUndefined => 0
  | VNull => 1
  | VBool _ => 2
  | VNum _ => 3
  | VStr _ => 4
  | VArr _ => 5
  | VObj _ => 6
  end%nat.

Definition num_key (v : value) : Z :=
  match v with
  | VBool b => if b then 1 else 0
  | VNum z => z
  | _ => 0
  end.

Definition str_key (v : value) : string :=
  match v with VStr s => s | _ => "" end.

Definition fs_compare (a b : value) : comparison :=
  lexc (Nat.compare (type_order a) (type_order b))
    (lexc (Z.compare (num_key a) (num_key b))
       (String.compare (str_key a) (str_key b))).

Definition where_holds (d : object) (f : string * WhereOp * value) : bool :=
  match f with
  | (field, op, v) =>
      match obj_lookup field d with
      | None => false
      | Some x =>
          match op with
          | OpEq => value_eqb x v
          | OpGt =>
              Nat.eqb (type_order x) (type_order v)
              && bool_decide (fs_compare x v = Gt)
          end
      end
  end.

(** The parent collection and the identifier of a document path. *)
Definition doc_split (p : Path) : option (Path * string) :=
  match reverse p with
  | [] => None
  | id :: rparent => Some (reverse rparent, id)
  end.

Definition in_source (s : Source) (p : Path) : bool :=
  match doc_split p with
  | None => false
  | Some (parent, _) =>
      match s with
      | Collection c => bool_decide (parent = c)
      | CollectionGroup cid => bool_decide (last parent = Some cid)
      end
  end.

Definition entry : Type := Path * object.

Definition directed (d : Direction) (c : comparison) : comparison :=
  match d with Asc => c | Desc => CompOpp c end.

Definition field_cmp (f : string) (d : Direction) (x y : entry) : comparison :=
  directed d (fs_compare (obj_get f x.2) (obj_get f y.2)).

Fixpoint orders_cmp (os : list (string * Direction)) (x y : entry) : comparison :=
  match os with
  | [] => Eq
  | (f, d) :: os' => lexc (field_cmp f d x y) (orders_cmp os' x y)
  end.

Definition path_cmp (p q : Path) : comparison :=
  list_compare String.compare p q.

(** Ties of the sort keys are decided by the document path, in the direction
    of the last sort key (ascending when there is none). *)
Definition last_direction (os : list (string * Direction)) : Direction :=
  match last os with Some (_, d) => d | None => Asc end.

Definition entry_cmp (os : list (string * Direction)) (x y : entry) : comparison :=
  lexc (orders_cmp os x y) (directed (last_direction os) (path_cmp x.1 y.1)).

Definition has_fields (os : list (string * Direction)) (d : object) : bool :=
  forallb (λ o, bool_decide (is_Some (obj_lookup o.1 d))) os.

Definition matches (q : Query) (e : entry) : bool :=
  in_source (q_source q) e.1
  && forallb (where_holds e.2) (q_filters q)
  && has_fields (q_orders q) e.2.

Definition apply_limit {A} (n : option Z) (l : list A) : list A :=
  match n with
  | Some z => take (Z.to_nat z) l
  | None => l
  end.

(** The entries a query selects, in result order, before the limit. *)
Definition select (q : Query) (docs : gmap Path object) : list entry :=
  merge_sort (cmp_le (entry_cmp (q_orders q)))
    (List.filter (matches q) (map_to_list docs)).

(** The result of a query: the data of the selected documents. *)
Definition exec_query (q : Query) (docs : gmap Path object) : list object :=
  apply_limit (q_limit q) ((λ e : entry, e.2) <$> select q docs).

(** ** Promises over a world *)

Inductive Outcome (A : Type) : Type :=
  | Resolved (a : A)
  | Rejected (reason : string).

Arguments Resolved {A} a.
Arguments Rejected {A} reason.

(** Modelled from the spec: the market entity of [common/contract], which is
    not among the sources; it has an internal id distinct from its slug. *)
Record Contract : Type := mkContract {
  contract_id : string;
  contract_slug : string;
  contract_props : object
}.

(** The HTTP response object of a request being served. *)
Record Response : Type := mkResponse {
  statusCode : Z;
  headers : gmap string string;
  body : option value
}.

(** What the code does to its environment, in the order it does it. *)
Inductive Event : Type :=
  | EvTrack (name : string) (props : object)
  | EvSetDoc (p : Path) (data : object)
  | EvGetDocs (q : Query)
  | EvListen (q : Query) (callback : string)
  | EvApplyCors
  | EvGetContractFromSlug (slug : string)
  | EvListAllBets (contractId : string)
  | EvRespond (r : Response).

(** The environment of the code: the document store with its documents,
    its subscriptions and the requests it refuses; the wall clock; the
    supply of automatic document identifiers; the collaborators of the HTTP
    handler; which of two concurrent requests fails first when both fail;
    and the trace of what has been done so far. *)
Record World : Type := mkWorld {
  docs : gmap Path object;
  write_refused : Path → object → bool;
  read_refused : Query → bool;
  listeners : list (Query * string);
  clock : Z;
  auto_id : nat → string;
  ids_used : nat;
  contract_of_slug : string → Outcome (option Contract);
  bets_of : string → Outcome (list object);
  first_fails_first : bool;
  trace : list Event
}.

Definition log (e : Event) (w : World) : World :=
  mkWorld (docs w) (write_refused w) (read_refused w) (listeners w) (clock w)
    (auto_id w) (ids_used w) (contract_of_slug w) (bets_of w)
    (first_fails_first w) (trace w ++ [e]).

Definition put_doc (p : Path) (d : object) (w : World) : World :=
  mkWorld (<[p := d]> (docs w)) (write_refused w) (read_refused w)
    (listeners w) (clock w) (auto_id w) (ids_used w) (contract_of_slug w)
    (bets_of w) (first_fails_first w) (trace w).

Definition add_listener (q : Query) (cb : string) (w : World) : World :=
  mkWorld (docs w) (write_refused w) (read_refused w) (listeners w ++ [(q, cb)])
    (clock w) (auto_id w) (ids_used w) (contract_of_slug w) (bets_of w)
    (first_fails_first w) (trace w).

Definition use_id (w : World) : World :=
  mkWorld (docs w) (write_refused w) (read_refused w) (listeners w) (clock w)
    (auto_id w) (S (ids_used w)) (contract_of_slug w) (bets_of w)
    (first_fails_first w) (trace w).

(** A computation that may touch the world and may reject. *)
Definition Promise (A : Type) : Type := World → Outcome A * World.

Definition ret {A} (a : A) : Promise A := λ w, (Resolved a, w).

Definition throw {A} (reason : string) : Promise A := λ w, (Rejected reason, w).

Definition bind {A B} (m : Promise A) (k : A → Promise B) : Promise B :=
  λ w, match m w with
       | (Resolved a, w') => k a w'
       | (Rejected e, w') => (Rejected e, w')
       end.

Notation "'let*' x ':=' m 'in' k" := (bind m (λ x, k))
  (at level 10, x pattern, m at level 100, k at level 200).

(** [Promise.all([p1, p2])]: both computations are started, in order; the
    result rejects when either does, with the reason of the one that fails
    first in time when both do. *)
Definition promise_all2 {A B} (p1 : Promise A) (p2 : Promise B) : Promise (A * B) :=
  λ w, let '(r1, w1) := p1 w in
       let '(r2, w2) := p2 w1 in
       match r1, r2 with
       | Resolved a, Resolved b => (Resolved (a, b), w2)
       | Rejected e, Resolved _ => (Rejected e, w2)
       | Resolved _, Rejected e => (Rejected e, w2)
       | Rejected e1, Rejected e2 =>
           (Rejected (if first_fails_first w then e1 else e2), w2)
       end.

(** ** The store client and the other collaborators *)

(** [Date.now()]. *)
Definition dateNow : Promise Z := λ w, (Resolved (clock w), w).

Record CollectionReference : Type := mkCollection { coll_path : Path }.

(** [collection(db, s1, ..., sn)], for segments that are identifiers: the
    store client takes its arguments apart at slashes and refuses empty
    segments, which the identifiers of documents and collections do not
    have (see [valid_id] below). *)
Definition collection_ref (segments : list string) : CollectionReference :=
  mkCollection segments.

(** A collection reference is a query over its documents. *)
Definition coll_query (c : CollectionReference) : Query :=
  collection (coll_path c).

Coercion coll_query : CollectionReference >-> Query.

Record DocumentReference : Type := mkDocRef {
  ref_path : Path;
  ref_id : string
}.

(** [doc(collectionRef)]: a reference to a new document of the collection
    under an automatically generated identifier. *)
Definition doc (c : CollectionReference) : Promise DocumentReference :=
  λ w, let i := auto_id w (ids_used w) in
       (Resolved (mkDocRef (coll_path c ++ [i]) i), use_id w).

(** [limit(n)]: the store client refuses a bound that is not positive. *)
Definition limit (n : Z) : Promise QueryConstraint :=
  if Z.leb n 0 then throw "limit() requires a positive number"
  else ret (CLimit n).

(** [setDoc(ref, data)]: a point write, creating or overwriting the document;
    the store may refuse it. *)
Definition setDoc (r : DocumentReference) (data : object) : Promise unit :=
  λ w, let w' := log (EvSetDoc (ref_path r) data) w in
       if write_refused w (ref_path r) data
       then (Rejected "write refused", w')
       else (Resolved tt, put_doc (ref_path r) data w').

(** Modelled from the spec: [getValues] of [./utils], which is not among the
    sources: it executes a query once and returns the materialized list. *)
Definition getValues (q : Query) : Promise (list object) :=
  λ w, let w' := log (EvGetDocs q) w in
       if read_refused w q
       then (Rejected "read refused", w')
       else (Resolved (exec_query q (docs w)), w').

(** Modelled from the spec: [listenForValues] of [./utils], which is not
    among the sources: it subscribes the callback to the query and returns
    the handle that ends the subscription (here the subscription's index). *)
Definition listenForValues (q : Query) (setValues : string) : Promise nat :=
  λ w, (Resolved (length (listeners w)),
        add_listener q setValues (log (EvListen q setValues) w)).

(** Modelled from the spec: [track] of [../service/analytics], which is not
    among the sources: fire-and-forget emission of an event name and a
    property bag. *)
Definition track (name : string) (props : object) : Promise unit :=
  λ w, (Resolved tt, log (EvTrack name props) w).

(** ** The comment access module, [web/lib/firebase/comments.ts] *)

Definition MAX_COMMENT_LENGTH : Z := 10000.

(** A user object as the caller passes it; the creation routine reads its
    [id], [name], [username] and [avatarUrl] properties. *)
Definition User : Type := object.

(** Rich-text content, a JSON document tree. *)
Definition JSONContent : Type := value.

(** [OnContract | OnGroup | OnPost]: the parent-type tag object. *)
Inductive ExtraFields : Type :=
  | OnContract (contractId : string) (answerOutcome : option string)
  | OnGroup (groupId : string)
  | OnPost (postId : string).

Definition commentType (e : ExtraFields) : string :=
  match e with
  | OnContract _ _ => "contract"
  | OnGroup _ => "group"
  | OnPost _ => "post"
  end.

(** The tag object as the three entry points write it. *)
Definition extra_object (e : ExtraFields) : object :=
  match e with
  | OnContract contractId answerOutcome =>
      obj_literal [("commentType", VStr "contract");
                   ("contractId", VStr contractId);
                   ("answerOutcome", opt_str answerOutcome)]
  | OnGroup groupId =>
      obj_literal [("commentType", VStr "group"); ("groupId", VStr groupId)]
  | OnPost postId =>
      obj_literal [("postId", VStr postId); ("commentType", VStr "post")]
  end.

Definition getCommentsCollection (contractId : string) : CollectionReference :=
  collection_ref ["contracts"; contractId; "comments"].

Definition getCommentsOnGroupCollection (groupId : string) : CollectionReference :=
  collection_ref ["groups"; groupId; "comments"].

Definition getCommentsOnPostCollection (postId : string) : CollectionReference :=
  collection_ref ["posts"; postId; "comments"].

Definition createComment (surfaceId : string) (extraFields : ExtraFields)
    (content : JSONContent) (user : User) (ref : DocumentReference)
    (replyToCommentId : option string) (onContractWithBounty : option bool)
    : Promise unit :=
  let* now := dateNow in
  let comment :=
    removeUndefinedProps
      (obj_spread
         (obj_literal [("id", VStr (ref_id ref));
                       ("userId", obj_get "id" user);
                       ("content", content);
                       ("createdTime", VNum now);
                       ("userName", obj_get "name" user);
                       ("userUsername", obj_get "username" user);
                       ("userAvatarUrl", obj_get "avatarUrl" user);
                       ("replyToCommentId", opt_str replyToCommentId)])
         (extra_object extraFields)) in
  let* _ :=
    track (commentType extraFields +:+ " message")
      (removeUndefinedProps
         (obj_literal [("user", VObj user);
                       ("commentId", VStr (ref_id ref));
                       ("surfaceId", VStr surfaceId);
                       ("replyToCommentId", opt_str replyToCommentId);
                       ("onContractWithBounty",
                        if String.eqb (commentType extraFields) "contract"
                        then opt_bool onContractWithBounty
                        else VUndefined)])) in
  setDoc ref comment.

Definition createCommentOnContract (contractId : string) (content : JSONContent)
    (user : User) (onContractWithBounty : bool) (answerOutcome : option string)
    (replyToCommentId : option string) : Promise unit :=
  let* ref := doc (getCommentsCollection contractId) in
  let onContract := OnContract contractId answerOutcome in
  createComment contractId onContract content user ref replyToCommentId
    (Some onContractWithBounty).

Definition createCommentOnGroup (groupId : string) (content : JSONContent)
    (user : User) (replyToCommentId : option string) : Promise unit :=
  let* ref := doc (getCommentsOnGroupCollection groupId) in
  let onGroup := OnGroup groupId in
  createComment groupId onGroup content user ref replyToCommentId None.

Definition createCommentOnPost (postId : string) (content : JSONContent)
    (user : User) (replyToCommentId : option string) : Promise unit :=
  let* ref := doc (getCommentsOnPostCollection postId) in
  let onPost := OnPost postId in
  createComment postId onPost content user ref replyToCommentId None.

Definition listAllComments (contractId : string) (maxCount : option Z)
    : Promise (list object) :=
  let q := query (getCommentsCollection contractId) [orderBy "createdTime" Desc] in
  let* limitedQ :=
    match maxCount with
    | Some n =>
        if truthy n then (let* c := limit n in ret (query q [c])) else ret q
    | None => ret q
    end in
  getValues limitedQ.

Definition listAllCommentsOnGroup (groupId : string) : Promise (list object) :=
  getValues
    (query (getCommentsOnGroupCollection groupId) [orderBy "createdTime" Desc]).

Definition listAllCommentsOnPost (postId : string) : Promise (list object) :=
  getValues
    (query (getCommentsOnPostCollection postId) [orderBy "createdTime" Desc]).

Definition listenForCommentsOnContract (contractId : string)
    (setComments : string) : Promise nat :=
  listenForValues
    (query (getCommentsCollection contractId) [orderBy "createdTime" Desc])
    setComments.

Definition listenForCommentsOnGroup (groupId : string)
    (setComments : string) : Promise nat :=
  listenForValues
    (query (getCommentsOnGroupCollection groupId) [orderBy "createdTime" Desc])
    setComments.

Definition listenForCommentsOnPost (postId : string)
    (setComments : string) : Promise nat :=
  listenForValues
    (query (getCommentsOnPostCollection postId) [orderBy "createdTime" Desc])
    setComments.

Definition DAY_IN_MS : Z := 24 * 60 * 60 * 1000.

(** The module-scoped constants, evaluated once when the module is loaded. *)
Record CommentsModule : Type := mkCommentsModule {
  recentCommentsQuery : Query
}.

Definition load_module : Promise CommentsModule :=
  let* now := dateNow in
  ret (mkCommentsModule
         (query (collectionGroup "comments")
            [where_ "createdTime" OpGt (VNum (now - 3 * DAY_IN_MS));
             orderBy "createdTime" Desc])).

Definition getRecentComments (m : CommentsModule) : Promise (list object) :=
  getValues (recentCommentsQuery m).

Definition listenForRecentComments (m : CommentsModule) (setComments : string)
    : Promise nat :=
  listenForValues (recentCommentsQuery m) setComments.

Definition getUserCommentsQuery (userId : string) : Query :=
  query (collectionGroup "comments")
    [where_ "userId" OpEq (VStr userId);
     where_ "commentType" OpEq (VStr "contract");
     orderBy "createdTime" Desc].

Definition listenForLiveComments (count : Z) (setComments : string)
    : Promise nat :=
  let* c := limit count in
  let commentsQuery :=
    query (collectionGroup "comments") [orderBy "createdTime" Desc; c] in
  listenForValues commentsQuery setComments.

(** ** The slug endpoint, [web/pages/api/v0/slug/[slug].ts] *)

Record Request : Type := mkRequest { req_slug : string }.

Definition new_response : Response := mkResponse 200 ∅ None.

(** [res.status(code)]. *)
Definition status (code : Z) (res : Response) : Response :=
  mkResponse code (headers res) (body res).

(** [res.setHeader(name, v)]. *)
Definition setHeader (name v : string) (res : Response) : Response :=
  mkResponse (statusCode res) (<[name := v]> (headers res)) (body res).

(** [res.json(b)]: the response is sent. *)
Definition json (b : value) (res : Response) : Promise Response :=
  λ w, let r := mkResponse (statusCode res) (headers res) (Some b) in
       (Resolved r, log (EvRespond r) w).

Record CorsOptions : Type := mkCors { allow_origin : string }.

(** Modelled from the spec: [CORS_UNRESTRICTED] and [applyCorsHeaders] of
    [web/lib/api/cors], which is not among the sources: "an unrestricted
    cross-origin policy (any origin permitted)" applied to the response. *)
Definition CORS_UNRESTRICTED : CorsOptions := mkCors "*".

Definition applyCorsHeaders (req : Request) (res : Response) (o : CorsOptions)
    : Promise Response :=
  λ w, (Resolved (setHeader "Access-Control-Allow-Origin" (allow_origin o) res),
        log EvApplyCors w).

(** Modelled from the spec: [getContractFromSlug] of
    [web/lib/firebase/contracts], which is not among the sources: it
    "resolves the slug to a market entity", or to nothing. *)
Definition getContractFromSlug (slug : string) : Promise (option Contract) :=
  λ w, (contract_of_slug w slug, log (EvGetContractFromSlug slug) w).

(** Modelled from the spec: [listAllBets] of [web/lib/firebase/bets], which
    is not among the sources: it fetches "the market's full bet list". *)
Definition listAllBets (contractId : string) : Promise (list object) :=
  λ w, (bets_of w contractId, log (EvListAllBets contractId) w).

Section SlugEndpoint.

(** [toFullMarket] of [../_types], which is not among the sources: the
    market's full public projection. *)
Variable toFullMarket : Contract → object.

Definition handler (req : Request) (res : Response) : Promise Response :=
  let* res := applyCorsHeaders req res CORS_UNRESTRICTED in
  let slug := req_slug req in
  let* contract := getContractFromSlug slug in
  match contract with
  | None =>
      json (VObj (obj_literal [("error", VStr "Contract not found")]))
        (status 404 res)
  | Some contract =>
      let* (bets, comments) :=
        promise_all2 (listAllBets (contract_id contract))
          (listAllComments (contract_id contract) None) in
      let res := setHeader "Cache-Control" "max-age=0" res in
      json
        (VObj
           (obj_spread
              (obj_literal [("comments", VArr (VObj <$> comments));
                            ("bets", VArr (VObj <$> bets))])
              (toFullMarket contract)))
        (status 200 res)
  end.

End SlugEndpoint.

(** ** Definitions for the statements *)

(** Most recent first: no result has an earlier creation time than a result
    after it. *)
Definition created_desc (l : list object) : Prop :=
  StronglySorted
    (λ a b, fs_compare (obj_get "createdTime" a) (obj_get "createdTime" b) ≠ Lt)
    l.

(** The record that [createComment] assembles before stripping, when the
    clock reads [now]. *)
Definition assembled_comment (extraFields : ExtraFields) (content : JSONContent)
    (user : User) (ref : DocumentReference) (replyToCommentId : option string)
    (now : Z) : object :=
  obj_spread
    (obj_literal [("id", VStr (ref_id ref));
                  ("userId", obj_get "id" user);
                  ("content", content);
                  ("createdTime", VNum now);
                  ("userName", obj_get "name" user);
                  ("userUsername", obj_get "username" user);
                  ("userAvatarUrl", obj_get "avatarUrl" user);
                  ("replyToCommentId", opt_str replyToCommentId)])
    (extra_object extraFields).

(** The record that [createComment] writes. *)
Definition written_comment (extraFields : ExtraFields) (content : JSONContent)
    (user : User) (ref : DocumentReference) (replyToCommentId : option string)
    (now : Z) : object :=
  removeUndefinedProps
    (assembled_comment extraFields content user ref replyToCommentId now).

(** The property bag of the analytics event of [createComment]. *)
Definition tracked_props (surfaceId : string) (extraFields : ExtraFields)
    (user : User) (ref : DocumentReference) (replyToCommentId : option string)
    (onContractWithBounty : option bool) : object :=
  removeUndefinedProps
    (obj_literal [("user", VObj user);
                  ("commentId", VStr (ref_id ref));
                  ("surfaceId", VStr surfaceId);
                  ("replyToCommentId", opt_str replyToCommentId);
                  ("onContractWithBounty",
                   if String.eqb (commentType extraFields) "contract"
                   then opt_bool onContractWithBounty
                   else VUndefined)]).

(** The query of the three listing functions over a comments collection. *)
Definition by_created_desc (coll : Path) : Query :=
  query (collection_ref coll) [orderBy "createdTime" Desc].

(** The three parent types, with the entry points that belong to each. *)
Inductive ParentType : Type := ContractParent | GroupParent | PostParent.

Definition comments_path (t : ParentType) (parentId : string) : Path :=
  coll_path
    match t with
    | ContractParent => getCommentsCollection parentId
    | GroupParent => getCommentsOnGroupCollection parentId
    | PostParent => getCommentsOnPostCollection parentId
    end.

Definition create_on (t : ParentType) (parentId : string) (content : JSONContent)
    (user : User) (bounty : bool) (answer reply : option string) : Promise unit :=
  match t with
  | ContractParent =>
      createCommentOnContract parentId content user bounty answer reply
  | GroupParent => createCommentOnGroup parentId content user reply
  | PostParent => createCommentOnPost parentId content user reply
  end.

Definition list_on (t : ParentType) (parentId : string) : Promise (list object) :=
  match t with
  | ContractParent => listAllComments parentId None
  | GroupParent => listAllCommentsOnGroup parentId
  | PostParent => listAllCommentsOnPost parentId
  end.

Definition demo_user : User :=
  [("id", VStr "u1"); ("name", VStr "Ann"); ("username", VStr "ann")].

(** A world with one comment under group [g1], written at time 3; the clock
    reads 5 and the next automatic identifier is [a]. *)
Definition demo_world : World :=
  mkWorld
    {[ ["groups"; "g1"; "comments"; "k"] :=
         [("id", VStr "k"); ("createdTime", VNum 3);
          ("commentType", VStr "group"); ("groupId", VStr "g1")] ]}
    (λ _ _, false) (λ _, false) [] 5 (λ _, "a") 0
    (λ _, Resolved None) (λ _, Resolved []) true [].

(** A world with one comment under contract [c1], written at time 5 under
    the identifier [z]; the clock still reads 5 and the next automatic
    identifier is [a]. *)
Definition tie_world : World :=
  mkWorld
    {[ ["contracts"; "c1"; "comments"; "z"] :=
         [("id", VStr "z"); ("createdTime", VNum 5);
          ("commentType", VStr "contract"); ("contractId", VStr "c1")] ]}
    (λ _ _, false) (λ _, false) [] 5 (λ _, "a") 0
    (λ _, Resolved None) (λ _, Resolved []) true [].

(** The query of [listAllComments] before any limit. *)
Definition comments_query (contractId : string) : Query :=
  query (getCommentsCollection contractId) [orderBy "createdTime" Desc].

(** The fetches of the handler: the bets fetch and the comments fetch. *)
Definition is_fetch (e : Event) : bool :=
  match e with
  | EvListAllBets _ | EvGetDocs _ => true
  | _ => false
  end.

Definition demo_contract : Contract :=
  mkContract "c1" "valid-slug" [("question", VStr "Will it rain?")].

Definition demo_toFullMarket (c : Contract) : object :=
  obj_spread
    [("id", VStr (contract_id c)); ("slug", VStr (contract_slug c))]
    (contract_props c).

(** A world that knows one market, under the slug [valid-slug], with one bet
    and one comment. *)
Definition market_world : World :=
  mkWorld (docs tie_world) (λ _ _, false) (λ _, false) [] 9 (λ _, "a") 0
    (λ slug, if String.eqb slug "valid-slug"
             then Resolved (Some demo_contract) else Resolved None)
    (λ _, Resolved [[("id", VStr "b1"); ("amount", VNum 10)]]) true [].

Definition sent_response (o : Outcome Response) : Response :=
  match o with Resolved r => r | Rejected _ => new_response end.

(** A world with three comments: a contract comment and a group comment by
    user [u1], and a contract comment by user [u2]. *)
Definition mixed_world : World :=
  mkWorld
    (<[ ["contracts"; "c1"; "comments"; "x"] :=
          [("id", VStr "x"); ("userId", VStr "u1"); ("createdTime", VNum 4);
           ("commentType", VStr "contract"); ("contractId", VStr "c1")] ]>
     (<[ ["groups"; "g1"; "comments"; "y"] :=
           [("id", VStr "y"); ("userId", VStr "u1"); ("createdTime", VNum 6);
            ("commentType", VStr "group"); ("groupId", VStr "g1")] ]>
      {[ ["contracts"; "c2"; "comments"; "z"] :=
           [("id", VStr "z"); ("userId", VStr "u2"); ("createdTime", VNum 8);
            ("commentType", VStr "contract"); ("contractId", VStr "c2")] ]}))
    (λ _ _, false) (λ _, false) [] 10 (λ _, "a") 0
    (λ _, Resolved None) (λ _, Resolved []) true [].

(** ** Definitions for the further properties *)

(** The type tag, the name of the parent-id field and the tag object of the
    comments of each parent type. *)
Definition parent_tag (t : ParentType) : string :=
  match t with
  | ContractParent => "contract"
  | GroupParent => "group"
  | PostParent => "post"
  end.

Definition parent_field (t : ParentType) : string :=
  match t with
  | ContractParent => "contractId"
  | GroupParent => "groupId"
  | PostParent => "postId"
  end.

Definition extra_of (t : ParentType) (parentId : string)
    (answer : option string) : ExtraFields :=
  match t with
  | ContractParent => OnContract parentId answer
  | GroupParent => OnGroup parentId
  | PostParent => OnPost parentId
  end.

(** The bounty flag that each entry point hands to [createComment]. *)
Definition bounty_of (t : ParentType) (bounty : bool) : option bool :=
  match t with
  | ContractParent => Some bounty
  | _ => None
  end.

(** The subscription accessor of each parent type. *)
Definition listen_on (t : ParentType) (parentId : string) (setComments : string)
    : Promise nat :=
  match t with
  | ContractParent => listenForCommentsOnContract parentId setComments
  | GroupParent => listenForCommentsOnGroup parentId setComments
  | PostParent => listenForCommentsOnPost parentId setComments
  end.

(** A document identifier: not empty and without a slash, so that it names
    exactly one segment of a path. *)
Fixpoint has_slash (s : string) : bool :=
  match s with
  | EmptyString => false
  | String c s' => String.eqb (String c EmptyString) "/" || has_slash s'
  end.

Definition valid_id (s : string) : bool :=
  negb (String.eqb s "") && negb (has_slash s).

(** The path [<parents>/<parentId>/comments/<id>] of a comment document. *)
Definition comment_path (t : ParentType) (parentId i : string) : Path :=
  match t with
  | ContractParent => ["contracts"; parentId; "comments"; i]
  | GroupParent => ["groups"; parentId; "comments"; i]
  | PostParent => ["posts"; parentId; "comments"; i]
  end.

(** Every comment document is filed under its own id, with the type tag and
    the parent id of the collection it is in, and a numeric creation time. *)
Definition well_filed (docs : gmap Path object) : Prop :=
  ∀ t parentId i d,
    docs !! comment_path t parentId i = Some d →
    obj_lookup "id" d = Some (VStr i)
    ∧ obj_lookup "commentType" d = Some (VStr (parent_tag t))
    ∧ obj_lookup (parent_field t) d = Some (VStr parentId)
    ∧ ∃ n, obj_lookup "createdTime" d = Some (VNum n).

(** All comments of all parents, most recent first. *)
Definition all_comments_query : Query :=
  query (collectionGroup "comments") [orderBy "createdTime" Desc].

Definition is_response (e : Event) : bool :=
  match e with EvRespond _ => true | _ => false end.

(** The events that change something outside: a document write or an
    analytics emission. *)
Definition is_effect (e : Event) : bool :=
  match e with EvSetDoc _ _ | EvTrack _ _ => true | _ => false end.

(** The events a run adds to the trace. *)
Definition new_events (w w' : World) : list Event :=
  drop (length (trace w)) (trace w').

(** The reference that an entry point obtains from [doc], and the record it
    writes there. *)
Definition new_ref (t : ParentType) (parentId : string) (w : World)
    : DocumentReference :=
  mkDocRef (comments_path t parentId ++ [auto_id w (ids_used w)])
    (auto_id w (ids_used w)).

Definition new_comment (t : ParentType) (parentId : string)
    (content : JSONContent) (user : User) (answer reply : option string)
    (w : World) : object :=
  written_comment (extra_of t parentId answer) content user
    (new_ref t parentId w) reply (clock w).

(** A projection that has a [bets] field of its own. *)
Definition shadowing_toFullMarket (c : Contract) : object :=
  [("id", VStr (contract_id c)); ("bets", VArr [])].

(** A world like [market_world] whose bets fetch fails. *)
Definition failing_world : World :=
  mkWorld (docs market_world) (λ _ _, false) (λ _, false) [] 9 (λ _, "a") 0
    (contract_of_slug market_world) (λ _, Rejected "bets unavailable") true [].

(** A property value as it is stored: an [undefined] one is not. *)
Definition defined (v : value) : option value :=
  if is_undefined v then None else Some v.

(** A world like [market_world] in which both fetches fail, the comments
    fetch first. *)
Definition racing_world : World :=
  mkWorld (docs market_world) (λ _ _, false) (λ _, true) [] 9 (λ _, "a") 0
    (contract_of_slug market_world) (λ _, Rejected "bets unavailable") false [].

(** * Properties *)

(** ** Comparison functions are total preorders *)

Section ComparatorFacts.
Context {A : Type} (cmp : A → A → comparison) `{!Comparator cmp}.

Lemma cmp_flip x y : cmp y x = CompOpp (cmp x y).
Proof. apply cmp_antisym. Qed.

Lemma cmp_chain c x y z : cmp x y = c → cmp y z = c → cmp x z = c.
Proof. apply cmp_trans. Qed.

Lemma cmp_refl x : cmp x x = Eq.
Proof.
  pose proof (cmp_flip x x) as H.
  destruct (cmp x x); simpl in H; congruence.
Qed.

Lemma cmp_eq_l x y z : cmp x y = Eq → cmp x z = cmp y z.
Proof.
  intros Hxy.
  assert (Hyx : cmp y x = Eq) by (by rewrite cmp_flip, Hxy).
  destruct (cmp y z) eqn:Hyz.
  - by apply (cmp_chain Eq x y z).
  - destruct (cmp x z) eqn:Hxz; [| done |].
    + assert (cmp y z = Eq) by (by apply (cmp_chain Eq y x z)). congruence.
    + assert (Hzy : cmp z y = Gt) by (by rewrite cmp_flip, Hyz).
      assert (cmp x y = Gt) by (by apply (cmp_chain Gt x z y)). congruence.
  - destruct (cmp x z) eqn:Hxz; [| | done].
    + assert (cmp y z = Eq) by (by apply (cmp_chain Eq y x z)). congruence.
    + assert (Hzy : cmp z y = Lt) by (by rewrite cmp_flip, Hyz).
      assert (cmp x y = Lt) by (by apply (cmp_chain Lt x z y)). congruence.
Qed.

Lemma cmp_eq_r x y z : cmp y z = Eq → cmp x z = cmp x y.
Proof.
  intros Hyz.
  assert (Hzy : cmp z y = Eq) by (by rewrite cmp_flip, Hyz).
  rewrite (cmp_flip z x), (cmp_flip y x).
  f_equal. by apply cmp_eq_l.
Qed.

Lemma cmp_le_total : Total (cmp_le cmp).
Proof.
  intros x y. unfold cmp_le. rewrite (cmp_flip x y).
  destruct (cmp x y); simpl; auto.
Qed.

Lemma cmp_le_trans : Transitive (cmp_le cmp).
Proof.
  intros x y z. unfold cmp_le. intros Hxy Hyz.
  destruct (cmp x y) eqn:E1; [| | done].
  - by rewrite (cmp_eq_l x y z).
  - destruct (cmp y z) eqn:E2; [| | done].
    + by rewrite (cmp_eq_r x y z), E1.
    + by rewrite (cmp_chain Lt x y z).
Qed.

(** In a sorted list an element that sorts strictly before all the others
    is the first. *)
Lemma sorted_first (l : list A) (x : A) :
  StronglySorted (cmp_le cmp) l →
  x ∈ l →
  (∀ y, y ∈ l → y = x ∨ cmp x y = Lt) →
  ∃ rest, l = x :: rest.
Proof.
  intros Hs Hx Hlt. destruct l as [| h t]; [by apply elem_of_nil in Hx |].
  destruct (Hlt h (list_elem_of_here _ _)) as [-> | Hxh]; [by eexists |].
  apply elem_of_cons in Hx as [-> | Hx]; [by eexists |].
  exfalso. apply StronglySorted_inv in Hs as [_ Hall].
  rewrite Forall_forall in Hall. specialize (Hall x Hx).
  unfold cmp_le in Hall. by rewrite cmp_flip, Hxh in Hall.
Qed.

End ComparatorFacts.

Lemma comparator_on {A B : Type} (f : A → B) (cmp : B → B → comparison) :
  Comparator cmp → Comparator (λ x y, cmp (f x) (f y)).
Proof.
  intros [Ha Ht]. split.
  - intros x y. apply Ha.
  - intros c x y z. apply Ht.
Qed.

Lemma comparator_lexc {A : Type} (cmp1 cmp2 : A → A → comparison) :
  Comparator cmp1 → Comparator cmp2 →
  Comparator (λ x y, lexc (cmp1 x y) (cmp2 x y)).
Proof.
  intros H1 H2. split.
  - intros x y. rewrite (cmp_flip cmp1 x y), (cmp_flip cmp2 x y).
    by destruct (cmp1 x y).
  - intros c x y z.
    destruct (cmp1 x y) eqn:E1; simpl.
    + rewrite (cmp_eq_l cmp1 x y z E1).
      destruct (cmp1 y z); simpl; [apply (cmp_chain cmp2) | done | done].
    + intros <-. destruct (cmp1 y z) eqn:E2; simpl; [| | done].
      * intros _. by rewrite (cmp_eq_r cmp1 x y z E2), E1.
      * intros _. by rewrite (cmp_chain cmp1 Lt x y z).
    + intros <-. destruct (cmp1 y z) eqn:E2; simpl; [| done |].
      * intros _. by rewrite (cmp_eq_r cmp1 x y z E2), E1.
      * intros _. by rewrite (cmp_chain cmp1 Gt x y z).
Qed.

Lemma comparator_directed {A : Type} (d : Direction) (cmp : A → A → comparison) :
  Comparator cmp → Comparator (λ x y, directed d (cmp x y)).
Proof.
  intros H. destruct d; simpl.
  - split; [apply (cmp_flip cmp) | apply (cmp_chain cmp)].
  - split.
    + intros x y. by rewrite (cmp_flip cmp x y).
    + intros c x y z Hxy Hyz.
      apply (f_equal CompOpp) in Hxy, Hyz. rewrite CompOpp_involutive in Hxy, Hyz.
      rewrite (cmp_chain cmp (CompOpp c) x y z Hxy Hyz).
      apply CompOpp_involutive.
Qed.

Lemma comparator_tie {A : Type} : Comparator (λ _ _ : A, Eq).
Proof. split; [done | by intros c x y z <-]. Qed.

#[global] Instance nat_comparator : Comparator Nat.compare.
Proof.
  split.
  - intros x y. apply Nat.compare_antisym.
  - intros c x y z. destruct c.
    + rewrite !Nat.compare_eq_iff. lia.
    + rewrite !Nat.compare_lt_iff. lia.
    + rewrite !Nat.compare_gt_iff. lia.
Qed.

#[global] Instance Z_comparator : Comparator Z.compare.
Proof.
  split.
  - intros x y. apply Z.compare_antisym.
  - intros c x y z. destruct c.
    + rewrite !Z.compare_eq_iff. lia.
    + rewrite !Z.compare_lt_iff. lia.
    + rewrite !Z.compare_gt_iff. lia.
Qed.

#[global] Instance ascii_comparator : Comparator Ascii.compare.
Proof.
  split.
  - intros x y. apply Ascii.compare_antisym.
  - intros c x y z. unfold Ascii.compare. destruct c.
    + rewrite !N.compare_eq_iff. lia.
    + rewrite !N.compare_lt_iff. lia.
    + rewrite !N.compare_gt_iff. lia.
Qed.

Lemma comparator_eq_iff {A : Type} (cmp : A → A → comparison) :
  Comparator cmp → (∀ x y, cmp x y = Eq → x = y) →
  ∀ x y, cmp x y = Eq ↔ x = y.
Proof.
  intros H Heq x y. split; [apply Heq | intros ->; by apply cmp_refl].
Qed.

Lemma list_comparator {A : Type} (cmp : A → A → comparison) :
  Comparator cmp → (∀ x y, cmp x y = Eq → x = y) →
  Comparator (list_compare cmp).
Proof.
  intros H Heq.
  pose proof (comparator_eq_iff cmp H Heq) as Hiff.
  split.
  - intros xs ys. apply list_compare_antisym; [done | apply (cmp_flip cmp)].
  - intros c xs ys zs. apply list_compare_trans; [done | |].
    + intros x y z c0. apply (cmp_chain cmp).
    + apply (cmp_flip cmp).
Qed.

Lemma string_compare_as_list (s t : string) :
  String.compare s t
  = list_compare Ascii.compare (String.list_ascii_of_string s)
      (String.list_ascii_of_string t).
Proof.
  revert t. induction s as [| a s IH]; intros [| b t]; simpl; try done.
  rewrite IH. done.
Qed.

#[global] Instance string_comparator : Comparator String.compare.
Proof.
  pose proof (list_comparator Ascii.compare ascii_comparator
                Ascii.compare_eq_iff) as [Ha Ht].
  split.
  - intros x y. rewrite !string_compare_as_list. apply Ha.
  - intros c x y z. rewrite !string_compare_as_list. apply Ht.
Qed.

#[global] Instance path_comparator : Comparator path_cmp.
Proof.
  apply list_comparator; [apply string_comparator | apply String.compare_eq_iff].
Qed.

Lemma path_cmp_eq (p q : Path) : path_cmp p q = Eq → p = q.
Proof.
  apply list_compare_refl.
  apply comparator_eq_iff; [apply string_comparator | apply String.compare_eq_iff].
Qed.

#[global] Instance fs_comparator : Comparator fs_compare.
Proof.
  unfold fs_compare.
  apply (comparator_lexc (λ a b, Nat.compare (type_order a) (type_order b))
           (λ a b, lexc (Z.compare (num_key a) (num_key b))
                     (String.compare (str_key a) (str_key b)))).
  - apply (comparator_on type_order), nat_comparator.
  - apply (comparator_lexc (λ a b, Z.compare (num_key a) (num_key b))
             (λ a b, String.compare (str_key a) (str_key b))).
    + apply (comparator_on num_key), Z_comparator.
    + apply (comparator_on str_key), string_comparator.
Qed.

#[global] Instance orders_comparator (os : list (string * Direction)) :
  Comparator (orders_cmp os).
Proof.
  induction os as [| [f d] os IH]; simpl.
  - apply comparator_tie.
  - apply (comparator_lexc (field_cmp f d) (orders_cmp os)); [| done].
    unfold field_cmp.
    apply (comparator_directed d
             (λ x y : entry, fs_compare (obj_get f x.2) (obj_get f y.2))).
    apply (comparator_on (λ x : entry, obj_get f x.2)), fs_comparator.
Qed.

#[global] Instance entry_comparator (os : list (string * Direction)) :
  Comparator (entry_cmp os).
Proof.
  unfold entry_cmp.
  apply (comparator_lexc (orders_cmp os)
           (λ x y : entry, directed (last_direction os) (path_cmp x.1 y.1)));
    [apply orders_comparator |].
  apply (comparator_directed (last_direction os)
           (λ x y : entry, path_cmp x.1 y.1)).
  apply (comparator_on (λ x : entry, x.1)), path_comparator.
Qed.

(** ** Query results *)

Lemma doc_split_snoc (c : Path) (i : string) : doc_split (c ++ [i]) = Some (c, i).
Proof. unfold doc_split. by rewrite reverse_snoc, reverse_involutive. Qed.

Lemma doc_split_Some (p parent : Path) (i : string) :
  doc_split p = Some (parent, i) → p = parent ++ [i].
Proof.
  unfold doc_split. destruct (reverse p) as [| x r] eqn:E; [done |].
  intros [= <- <-]. apply (f_equal reverse) in E.
  by rewrite reverse_involutive, reverse_cons in E.
Qed.

Lemma in_collection (c p : Path) :
  in_source (Collection c) p = true ↔ ∃ i, p = c ++ [i].
Proof.
  unfold in_source. split.
  - destruct (doc_split p) as [[parent i] |] eqn:E; [| done].
    intros ->%bool_decide_eq_true. apply doc_split_Some in E. eauto.
  - intros [i ->]. rewrite doc_split_snoc. by apply bool_decide_eq_true.
Qed.

Lemma in_collection_group (cid : string) (p : Path) :
  in_source (CollectionGroup cid) p = true ↔ ∃ parent i, p = parent ++ [cid; i].
Proof.
  unfold in_source. split.
  - destruct (doc_split p) as [[parent i] |] eqn:E; [| done].
    intros Hl%bool_decide_eq_true. apply doc_split_Some in E.
    apply last_Some in Hl as [parent' ->].
    exists parent', i. by rewrite E, <- app_assoc.
  - intros (parent & i & ->).
    change [cid; i] with ([cid] ++ [i]). rewrite app_assoc, doc_split_snoc.
    apply bool_decide_eq_true, last_snoc.
Qed.

Lemma select_sorted (q : Query) (docs : gmap Path object) :
  StronglySorted (cmp_le (entry_cmp (q_orders q))) (select q docs).
Proof.
  apply StronglySorted_merge_sort.
  - apply cmp_le_trans, entry_comparator.
  - apply cmp_le_total, entry_comparator.
Qed.

Lemma select_perm (q : Query) (docs : gmap Path object) :
  select q docs ≡ₚ List.filter (matches q) (map_to_list docs).
Proof. apply merge_sort_Permutation. Qed.

Lemma elem_of_select (q : Query) (docs : gmap Path object) (e : entry) :
  e ∈ select q docs ↔ docs !! e.1 = Some e.2 ∧ matches q e = true.
Proof.
  rewrite select_perm, list_elem_of_In, filter_In, <- list_elem_of_In.
  destruct e as [p d]. simpl.
  split; intros [H1 H2]; (split; [| done]); by apply elem_of_map_to_list.
Qed.

Lemma elem_of_take_1 {A : Type} (x : A) (n : nat) (l : list A) :
  x ∈ take n l → x ∈ l.
Proof. intros (i & Hi & _)%elem_of_take. by eapply list_elem_of_lookup_2. Qed.

Lemma StronglySorted_take {A : Type} (R : relation A) (n : nat) (l : list A) :
  StronglySorted R l → StronglySorted R (take n l).
Proof.
  intros Hs. revert n. induction Hs as [| x l Hs IH Hall]; intros [| n]; simpl;
    try constructor.
  - apply IH.
  - apply Forall_forall. intros y Hy%elem_of_take_1.
    rewrite Forall_forall in Hall. auto.
Qed.

Lemma StronglySorted_map {A B : Type} (R : relation A) (R' : relation B)
    (f : A → B) (l : list A) :
  (∀ x y, R x y → R' (f x) (f y)) →
  StronglySorted R l → StronglySorted R' (f <$> l).
Proof.
  intros HR. induction 1 as [| x l Hs IH Hall]; simpl; constructor; [done |].
  apply Forall_fmap. eapply Forall_impl; [done |]. intros y. apply HR.
Qed.

Lemma apply_limit_sorted {A : Type} (R : relation A) (n : option Z) (l : list A) :
  StronglySorted R l → StronglySorted R (apply_limit n l).
Proof. destruct n; simpl; [apply StronglySorted_take | done]. Qed.

Lemma elem_of_apply_limit {A : Type} (n : option Z) (l : list A) (x : A) :
  x ∈ apply_limit n l → x ∈ l.
Proof. destruct n; simpl; [apply elem_of_take_1 | done]. Qed.

Lemma created_desc_le (x y : entry) :
  cmp_le (entry_cmp [("createdTime", Desc)]) x y →
  fs_compare (obj_get "createdTime" x.2) (obj_get "createdTime" y.2) ≠ Lt.
Proof.
  unfold cmp_le, entry_cmp, orders_cmp, field_cmp. simpl.
  intros H E. rewrite E in H. simpl in H. done.
Qed.

(** The results of a query sorted by creation time, descending, come most
    recent first. *)
Lemma exec_query_created_desc (q : Query) (docs : gmap Path object) :
  q_orders q = [("createdTime", Desc)] → created_desc (exec_query q docs).
Proof.
  intros Ho. unfold exec_query, created_desc.
  apply apply_limit_sorted.
  apply (StronglySorted_map (cmp_le (entry_cmp (q_orders q)))).
  - rewrite Ho. apply created_desc_le.
  - apply select_sorted.
Qed.

(** Every result is the data of a stored document that the query matches. *)
Lemma elem_of_exec_query (q : Query) (docs : gmap Path object) (d : object) :
  d ∈ exec_query q docs →
  ∃ p, docs !! p = Some d ∧ matches q (p, d) = true.
Proof.
  unfold exec_query. intros H%elem_of_apply_limit.
  apply list_elem_of_fmap in H as ([p d'] & -> & H).
  apply elem_of_select in H. eauto.
Qed.

(** Without a limit, every matching document is among the results. *)
Lemma exec_query_complete (q : Query) (docs : gmap Path object) (p : Path)
    (d : object) :
  q_limit q = None → docs !! p = Some d → matches q (p, d) = true →
  d ∈ exec_query q docs.
Proof.
  intros Hl Hd Hm. unfold exec_query. rewrite Hl. simpl.
  apply list_elem_of_fmap. exists (p, d). split; [done |].
  by apply elem_of_select.
Qed.

Lemma exec_query_limit (q : Query) (n : Z) (docs : gmap Path object) :
  exec_query (query q [CLimit n]) docs
  = take (Z.to_nat n)
      (exec_query (mkQuery (q_source q) (q_filters q) (q_orders q) None) docs).
Proof. done. Qed.

(** ** Objects *)

Lemma obj_lookup_None (k : string) (o : object) :
  obj_lookup k o = None ↔ k ∉ o.*1.
Proof.
  induction o as [| [k' v] o IH]; simpl.
  - split; [intros _; apply not_elem_of_nil | done].
  - rewrite not_elem_of_cons, <- IH.
    destruct (String.eqb_spec k k') as [-> | Hne]; naive_solver.
Qed.

Lemma obj_lookup_set (k k' : string) (v : value) (o : object) :
  obj_lookup k (obj_set k' v o)
  = if String.eqb k k' then Some v else obj_lookup k o.
Proof.
  induction o as [| [k1 v1] o IH]; simpl.
  - done.
  - destruct (String.eqb_spec k' k1) as [-> | Hne]; simpl.
    + by destruct (String.eqb k k1).
    + rewrite IH. destruct (String.eqb_spec k k1) as [-> | Hne'];
        [| done].
      by rewrite (proj2 (String.eqb_neq k1 k')).
Qed.

Lemma obj_set_keys (k : string) (v : value) (o : object) :
  NoDup o.*1 → NoDup (obj_set k v o).*1 ∧ ∀ j, j ∈ (obj_set k v o).*1 ↔ j = k ∨ j ∈ o.*1.
Proof.
  induction o as [| [k1 v1] o IH]; simpl; intros Hnd.
  - split; [apply NoDup_singleton | intros j; set_solver].
  - apply NoDup_cons in Hnd as [Hk1 Hnd].
    destruct (String.eqb_spec k k1) as [-> | Hne]; simpl.
    + split; [by apply NoDup_cons | intros j; set_solver].
    + destruct (IH Hnd) as [IH1 IH2]. split.
      * apply NoDup_cons. split; [| done]. rewrite IH2. naive_solver.
      * intros j. rewrite !elem_of_cons, IH2. naive_solver.
Qed.

Lemma obj_spread_NoDup (base extra : object) :
  NoDup base.*1 → NoDup (obj_spread base extra).*1.
Proof.
  unfold obj_spread. revert base.
  induction extra as [| [k v] e IH]; simpl; intros base Hb; [done |].
  apply IH. by apply obj_set_keys.
Qed.

Lemma obj_literal_NoDup (props : list (string * value)) :
  NoDup (obj_literal props).*1.
Proof. apply obj_spread_NoDup, NoDup_nil_2. Qed.

(** A key that the spread object lacks keeps its value. *)
Lemma obj_lookup_spread_absent (k : string) (base extra : object) :
  obj_lookup k extra = None →
  obj_lookup k (obj_spread base extra) = obj_lookup k base.
Proof.
  unfold obj_spread. revert base.
  induction extra as [| [k1 v1] e IH]; simpl; intros base; [done |].
  destruct (String.eqb_spec k k1) as [-> | Hne]; [done |].
  intros He. rewrite IH, obj_lookup_set by done.
  by rewrite (proj2 (String.eqb_neq k k1)).
Qed.

(** A key of the spread object takes the value it has there. *)
Lemma obj_lookup_spread_present (k : string) (v : value) (base extra : object) :
  NoDup extra.*1 → obj_lookup k extra = Some v →
  obj_lookup k (obj_spread base extra) = Some v.
Proof.
  revert base.
  induction extra as [| [k1 v1] e IH]; simpl; intros base Hnd; [done |].
  apply NoDup_cons in Hnd as [Hk1 Hnd].
  destruct (String.eqb_spec k k1) as [-> | Hne].
  - intros [= ->].
    change (obj_spread base ((k1, v) :: e))
      with (obj_spread (obj_set k1 v base) e).
    rewrite obj_lookup_spread_absent by (by apply obj_lookup_None).
    by rewrite obj_lookup_set, String.eqb_refl.
  - intros He. by apply (IH (obj_set k1 v1 base)).
Qed.

(** No property of a stripped object is [undefined]. *)
Lemma removeUndefinedProps_defined (k : string) (o : object) :
  obj_lookup k (removeUndefinedProps o) ≠ Some VUndefined.
Proof.
  induction o as [| [k' v] o IH]; simpl; [done |].
  destruct (is_undefined v) eqn:E; simpl; [done |].
  destruct (String.eqb k k'); [| done].
  intros [= ->]. done.
Qed.

(** Stripping removes exactly the properties whose value is [undefined]. *)
Lemma obj_lookup_removeUndefinedProps (k : string) (o : object) :
  NoDup o.*1 →
  obj_lookup k (removeUndefinedProps o)
  = match obj_lookup k o with
    | Some v => if is_undefined v then None else Some v
    | None => None
    end.
Proof.
  induction o as [| [k' v] o IH]; simpl; intros Hnd; [done |].
  apply NoDup_cons in Hnd as [Hk' Hnd].
  destruct (String.eqb_spec k k') as [-> | Hne].
  - destruct (is_undefined v) eqn:E; simpl.
    + rewrite IH by done.
      by rewrite (proj2 (obj_lookup_None k' o) Hk').
    + by rewrite String.eqb_refl.
  - destruct (is_undefined v) eqn:E; simpl.
    + by apply IH.
    + rewrite (proj2 (String.eqb_neq k k')) by done. by apply IH.
Qed.

Lemma value_eqb_str (x : value) (s : string) :
  value_eqb x (VStr s) = true → x = VStr s.
Proof. destruct x; simpl; try done. by intros ->%String.eqb_eq. Qed.

Lemma is_undefined_opt_str (o : option string) :
  is_undefined (opt_str o) = bool_decide (o = None).
Proof. by destruct o. Qed.

(** ** Comment creation *)

(** One run of the shared creation routine: the analytics event, then the
    write, which the store accepts or refuses. *)
Lemma createComment_run surfaceId extraFields content user ref reply bounty w :
  createComment surfaceId extraFields content user ref reply bounty w
  = let data := written_comment extraFields content user ref reply (clock w) in
    let w1 :=
      log (EvSetDoc (ref_path ref) data)
        (log (EvTrack (commentType extraFields +:+ " message")
                (tracked_props surfaceId extraFields user ref reply bounty))
           w) in
    if write_refused w (ref_path ref) data
    then (Rejected "write refused", w1)
    else (Resolved tt, put_doc (ref_path ref) data w1).
Proof. reflexivity. Qed.

Lemma assembled_comment_NoDup extraFields content user ref reply now :
  NoDup (assembled_comment extraFields content user ref reply now).*1.
Proof. apply obj_spread_NoDup, obj_literal_NoDup. Qed.

Lemma written_comment_lookup k extraFields content user ref reply now :
  obj_lookup k (written_comment extraFields content user ref reply now)
  = match obj_lookup k (assembled_comment extraFields content user ref reply now) with
    | Some v => if is_undefined v then None else Some v
    | None => None
    end.
Proof.
  apply obj_lookup_removeUndefinedProps, assembled_comment_NoDup.
Qed.

Lemma written_comment_createdTime extraFields content user ref reply now :
  obj_lookup "createdTime"
    (written_comment extraFields content user ref reply now)
  = Some (VNum now).
Proof. rewrite written_comment_lookup. by destruct extraFields. Qed.

Lemma written_comment_id extraFields content user ref reply now :
  obj_lookup "id" (written_comment extraFields content user ref reply now)
  = Some (VStr (ref_id ref)).
Proof. rewrite written_comment_lookup. by destruct extraFields. Qed.

Lemma written_comment_commentType extraFields content user ref reply now :
  obj_lookup "commentType"
    (written_comment extraFields content user ref reply now)
  = Some (VStr (commentType extraFields)).
Proof. rewrite written_comment_lookup. by destruct extraFields. Qed.

(** C6. Every comment written by the shared creation routine is written
    without any field whose value is undefined: no field of the record handed
    to the write, which is the record stored when the write is accepted, is
    [undefined]; and a field is present exactly when its assembled value is
    defined, so that an omitted [replyToCommentId], an omitted
    [answerOutcome] and a missing author avatar URL leave no field behind,
    neither as [null] nor as [undefined]. *)
Theorem createComment_strips_undefined :
  ∀ surfaceId extraFields content user ref reply bounty w,
    let data := written_comment extraFields content user ref reply (clock w) in
    let r :=
      createComment surfaceId extraFields content user ref reply bounty w in
    last (trace r.2) = Some (EvSetDoc (ref_path ref) data)
    ∧ (r.1 = Resolved tt → docs r.2 !! ref_path ref = Some data)
    ∧ (∀ k, obj_lookup k data ≠ Some VUndefined)
    ∧ (∀ k, obj_lookup k data = None ↔
            obj_get k (assembled_comment extraFields content user ref reply
                         (clock w)) = VUndefined)
    ∧ (reply = None → obj_lookup "replyToCommentId" data = None)
    ∧ (obj_get "avatarUrl" user = VUndefined →
       obj_lookup "userAvatarUrl" data = None)
    ∧ (∀ contractId, extraFields = OnContract contractId None →
       obj_lookup "answerOutcome" data = None).
Proof.
  intros surfaceId extraFields content user ref reply bounty w data r.
  subst r. rewrite createComment_run. fold data. cbv zeta.
  assert (Hshape : ∀ k, obj_lookup k data = None ↔
            obj_get k (assembled_comment extraFields content user ref reply
                         (clock w)) = VUndefined).
  { intros k. unfold data. rewrite written_comment_lookup. unfold obj_get.
    destruct (obj_lookup k _) as [v |]; [| done].
    destruct v; simpl; split; done. }
  assert (Hlast : ∀ t e, last (t ++ [e] : list Event) = Some e)
    by (intros; apply last_snoc).
  destruct (write_refused w (ref_path ref) data) eqn:Hw;
    cbn [fst snd log put_doc trace docs];
    (split; [apply Hlast |]);
    (split; [first [done | intros _; apply lookup_insert_eq] |]);
    (split; [intros k; apply removeUndefinedProps_defined |]);
    (split; [apply Hshape |]);
    (split; [intros ->; apply Hshape; by destruct extraFields |]);
    (split; [| intros c ->; by apply Hshape]);
    intros Ha; apply Hshape; unfold obj_get at 1;
    destruct extraFields; simpl; by rewrite Ha.
Qed.

(** C7. Every run of the shared creation routine emits the analytics event
    named after the comment type, carrying the user, the new comment id, the
    parent id, the reply target when there is one and, for contract comments
    only, the bounty flag; the event is emitted before the write and whatever
    the write's outcome: when the store refuses the write, the routine
    rejects, no document changes, and the event has been emitted all the
    same. *)
Theorem createComment_tracks_before_write :
  ∀ surfaceId extraFields content user ref reply bounty w,
    let r :=
      createComment surfaceId extraFields content user ref reply bounty w in
    let name := commentType extraFields +:+ " message" in
    let props := tracked_props surfaceId extraFields user ref reply bounty in
    let data := written_comment extraFields content user ref reply (clock w) in
    trace r.2 = trace w ++ [EvTrack name props; EvSetDoc (ref_path ref) data]
    ∧ obj_lookup "user" props = Some (VObj user)
    ∧ obj_lookup "commentId" props = Some (VStr (ref_id ref))
    ∧ obj_lookup "surfaceId" props = Some (VStr surfaceId)
    ∧ obj_lookup "replyToCommentId" props = VStr <$> reply
    ∧ obj_lookup "onContractWithBounty" props
      = match extraFields with
        | OnContract _ _ => VBool <$> bounty
        | _ => None
        end
    ∧ (write_refused w (ref_path ref) data = true →
       r.1 = Rejected "write refused" ∧ docs r.2 = docs w
       ∧ EvTrack name props ∈ trace r.2)
    ∧ (write_refused w (ref_path ref) data = false →
       r.1 = Resolved tt ∧ docs r.2 = <[ref_path ref := data]> (docs w)).
Proof.
  intros surfaceId extraFields content user ref reply bounty w r name props data.
  subst r. rewrite createComment_run. fold data name props. cbv zeta.
  assert (Hlookup : ∀ k,
            obj_lookup k props
            = match obj_lookup k
                      (obj_literal
                         [("user", VObj user);
                          ("commentId", VStr (ref_id ref));
                          ("surfaceId", VStr surfaceId);
                          ("replyToCommentId", opt_str reply);
                          ("onContractWithBounty",
                           if String.eqb (commentType extraFields) "contract"
                           then opt_bool bounty
                           else VUndefined)]) with
              | Some v => if is_undefined v then None else Some v
              | None => None
              end).
  { intros k. apply obj_lookup_removeUndefinedProps, obj_literal_NoDup. }
  split.
  { destruct (write_refused w (ref_path ref) data);
      cbn [snd log put_doc trace]; by rewrite <- app_assoc. }
  split; [by rewrite Hlookup |].
  split; [by rewrite Hlookup |].
  split; [by rewrite Hlookup |].
  split; [rewrite Hlookup; by destruct reply |].
  split; [rewrite Hlookup; by destruct extraFields, bounty |].
  split; intros ->; cbn [fst snd log put_doc trace docs].
  - split; [done |]. split; [done |]. set_solver.
  - done.
Qed.

(** ** Creating a comment, then listing *)

Lemma createCommentOnContract_run contractId content user bounty answer reply w :
  createCommentOnContract contractId content user bounty answer reply w
  = let i := auto_id w (ids_used w) in
    createComment contractId (OnContract contractId answer) content user
      (mkDocRef (["contracts"; contractId; "comments"] ++ [i]) i) reply
      (Some bounty) (use_id w).
Proof. reflexivity. Qed.

Lemma createCommentOnGroup_run groupId content user reply w :
  createCommentOnGroup groupId content user reply w
  = let i := auto_id w (ids_used w) in
    createComment groupId (OnGroup groupId) content user
      (mkDocRef (["groups"; groupId; "comments"] ++ [i]) i) reply None
      (use_id w).
Proof. reflexivity. Qed.

Lemma createCommentOnPost_run postId content user reply w :
  createCommentOnPost postId content user reply w
  = let i := auto_id w (ids_used w) in
    createComment postId (OnPost postId) content user
      (mkDocRef (["posts"; postId; "comments"] ++ [i]) i) reply None
      (use_id w).
Proof. reflexivity. Qed.

Lemma matches_by_created_desc (coll p : Path) (d : object) :
  matches (by_created_desc coll) (p, d) = true
  ↔ (∃ i, p = coll ++ [i]) ∧ is_Some (obj_lookup "createdTime" d).
Proof.
  unfold matches, has_fields. cbn [by_created_desc query fold_left
    add_constraint orderBy coll_query collection collection_ref coll_path
    q_source q_filters q_orders forallb fst snd app].
  rewrite !andb_true_r, andb_true_iff, in_collection, bool_decide_eq_true.
  reflexivity.
Qed.

(** A comment written at the current clock reading into a collection whose
    other comments are all strictly older comes first in the listing. *)
Lemma written_comes_first (coll : Path) surfaceId extraFields content user reply
    bounty (w w1 : World) :
  let i := auto_id w (ids_used w) in
  let ref := mkDocRef (coll ++ [i]) i in
  let c := written_comment extraFields content user ref reply (clock w) in
  createComment surfaceId extraFields content user ref reply bounty (use_id w)
  = (Resolved tt, w1) →
  (∀ j d, j ≠ i → docs w !! (coll ++ [j]) = Some d →
          fs_compare (obj_get "createdTime" d) (VNum (clock w)) = Lt) →
  read_refused w1 (by_created_desc coll) = false →
  docs w1 !! (coll ++ [i]) = Some c
  ∧ ∃ rest, getValues (by_created_desc coll) w1
            = (Resolved (c :: rest), log (EvGetDocs (by_created_desc coll)) w1).
Proof.
  intros i ref c. rewrite createComment_run. cbv zeta.
  cbn [clock write_refused use_id]. fold c.
  change (ref_path ref) with (coll ++ [i]).
  destruct (write_refused w (coll ++ [i]) c) eqn:Hw; [done |].
  intros [= <-] Hold Hread.
  split; [apply lookup_insert_eq |].
  unfold getValues. rewrite Hread. cbn [docs put_doc log use_id].
  set (docs1 := <[coll ++ [i] := c]> (docs w)).
  set (q := by_created_desc coll).
  assert (Hct : obj_lookup "createdTime" c = Some (VNum (clock w)))
    by apply written_comment_createdTime.
  destruct (sorted_first (entry_cmp (q_orders q)) (select q docs1) (coll ++ [i], c))
    as [rest Hrest].
  - apply select_sorted.
  - apply elem_of_select. split; [apply lookup_insert_eq |].
    apply matches_by_created_desc. split; [by eexists | by rewrite Hct].
  - intros [p d] [Hd Hm]%elem_of_select. simpl in Hd.
    apply matches_by_created_desc in Hm as [[j ->] _].
    destruct (decide (j = i)) as [-> | Hne].
    + left. unfold docs1 in Hd. rewrite lookup_insert_eq in Hd. congruence.
    + right. unfold docs1 in Hd.
      rewrite lookup_insert_ne in Hd by (intros ?; simplify_list_eq).
      specialize (Hold j d Hne Hd).
      unfold entry_cmp, q. cbn [by_created_desc query fold_left add_constraint
        orderBy coll_query collection q_orders app orders_cmp field_cmp
        directed fst snd].
      unfold obj_get at 1. rewrite Hct.
      rewrite (cmp_flip fs_compare (obj_get "createdTime" d) (VNum (clock w))),
        Hold.
      done.
  - exists ((λ e : entry, e.2) <$> rest).
    unfold exec_query. fold q. by rewrite Hrest.
Qed.

(** C2, amended. For each of the three parent types: when the create
    function of the type resolves and every other comment of that parent has
    a strictly older creation time than the new one, then listing that
    parent's comments, when the store serves the read, yields the new
    comment first.  (A comment created in the same millisecond may come
    before it: the store orders equal creation times by document id.) *)
Theorem create_then_list_first :
  ∀ t parentId content user bounty answer reply (w w1 : World),
    create_on t parentId content user bounty answer reply w = (Resolved tt, w1) →
    (∀ j d, j ≠ auto_id w (ids_used w) →
            docs w !! (comments_path t parentId ++ [j]) = Some d →
            fs_compare (obj_get "createdTime" d) (VNum (clock w)) = Lt) →
    read_refused w1 (by_created_desc (comments_path t parentId)) = false →
    ∃ c rest w2,
      list_on t parentId w1 = (Resolved (c :: rest), w2)
      ∧ docs w1 !! (comments_path t parentId ++ [auto_id w (ids_used w)]) = Some c
      ∧ obj_lookup "id" c = Some (VStr (auto_id w (ids_used w)))
      ∧ obj_lookup "createdTime" c = Some (VNum (clock w)).
Proof.
  intros t parentId content user bounty answer reply w w1 Hc Hold Hread.
  destruct t; cbn [create_on] in Hc;
    [rewrite createCommentOnContract_run in Hc
    |rewrite createCommentOnGroup_run in Hc
    |rewrite createCommentOnPost_run in Hc];
    cbv zeta in Hc;
    destruct (written_comes_first _ _ _ _ _ _ _ _ _ Hc Hold Hread)
      as [Hdoc [rest Hlist]];
    eexists _, rest, _;
    (split; [exact Hlist |]); (split; [exact Hdoc |]);
    (split; [apply written_comment_id | apply written_comment_createdTime]).
Qed.

Lemma create_then_list_first_witness :
  ∃ c rest w2,
    list_on GroupParent "g1"
      (create_on GroupParent "g1" VNull demo_user false None None demo_world).2
    = (Resolved (c :: rest), w2)
    ∧ docs (create_on GroupParent "g1" VNull demo_user false None None
              demo_world).2
        !! (comments_path GroupParent "g1" ++ ["a"]) = Some c
    ∧ obj_lookup "id" c = Some (VStr "a")
    ∧ obj_lookup "createdTime" c = Some (VNum 5).
Proof.
  apply (create_then_list_first GroupParent "g1" VNull demo_user false None
           None demo_world).
  - reflexivity.
  - intros j d Hj Hd. cbn [docs demo_world] in Hd.
    apply lookup_singleton_Some in Hd as [_ <-]. reflexivity.
  - reflexivity.
Defined.

(** C2 as stated fails when another comment has the same creation time: no
    other comment is newer than the new one, and yet the listing starts with
    the other comment. *)
Lemma create_then_list_first_fails_on_tie :
  ∃ w1 c rest w2,
    createCommentOnContract "c1" VNull demo_user false None None tie_world
    = (Resolved tt, w1)
    ∧ (∀ j d, j ≠ "a" →
              docs tie_world !! (["contracts"; "c1"; "comments"] ++ [j]) = Some d →
              fs_compare (obj_get "createdTime" d) (VNum (clock tie_world)) ≠ Gt)
    ∧ obj_lookup "id" <$> docs w1 !! ["contracts"; "c1"; "comments"; "a"]
      = Some (Some (VStr "a"))
    ∧ listAllComments "c1" None w1 = (Resolved (c :: rest), w2)
    ∧ obj_lookup "id" c = Some (VStr "z").
Proof.
  set (r1 := createCommentOnContract "c1" VNull demo_user false None None
               tie_world).
  set (r2 := listAllComments "c1" None r1.2).
  exists r1.2.
  exists (match r2.1 with Resolved (c :: _) => c | _ => [] end).
  exists (match r2.1 with Resolved (_ :: rest) => rest | _ => [] end).
  exists r2.2.
  split; [by vm_compute |]. split.
  - intros j d Hj Hd. cbn [docs tie_world] in Hd.
    apply lookup_singleton_Some in Hd as [_ <-]. by vm_compute.
  - split; [by vm_compute |]. split; by vm_compute.
Qed.

(** ** Listing the comments of a market *)

Lemma comments_query_eq (contractId : string) :
  comments_query contractId
  = by_created_desc ["contracts"; contractId; "comments"].
Proof. reflexivity. Qed.

(** All comments of a market: the data of the documents of its comments
    collection that carry a creation time, most recent first. *)
Lemma all_comments (contractId : string) (docs : gmap Path object) :
  let all := exec_query (comments_query contractId) docs in
  created_desc all
  ∧ (∀ d, d ∈ all ↔
          ∃ i, docs !! ["contracts"; contractId; "comments"; i] = Some d
               ∧ is_Some (obj_lookup "createdTime" d))
  ∧ all ≡ₚ (λ e : entry, e.2)
             <$> List.filter (matches (comments_query contractId))
                   (map_to_list docs).
Proof.
  intros all. split; [by apply exec_query_created_desc |]. split.
  - intros d. split.
    + intros (p & Hd & Hm)%elem_of_exec_query.
      rewrite comments_query_eq in Hm.
      apply matches_by_created_desc in Hm as [[i ->] Hct].
      exists i. by split.
    + intros (i & Hd & Hct).
      apply (exec_query_complete (comments_query contractId) _ _ _ eq_refl Hd).
      rewrite comments_query_eq. apply matches_by_created_desc.
      split; [by exists i | done].
  - unfold all, exec_query. cbn [apply_limit comments_query q_limit query
      fold_left add_constraint orderBy coll_query collection].
    by rewrite select_perm.
Qed.

(** C1, amended. For every market id and every positive maximum count [N],
    [listAllComments(contractId, N)], when the store serves the read, returns
    the first [N] of all the market's comments in descending creation-time
    order: no more than [N] results, exactly [min(N, total)]; when the
    maximum count is omitted, it returns all of them.  (A count of zero is
    treated as omitted.) *)
Theorem listAllComments_bounded :
  ∀ (contractId : string) (N : Z) (w : World),
    0 < N →
    read_refused w (query (comments_query contractId) [CLimit N]) = false →
    read_refused w (comments_query contractId) = false →
    let all := exec_query (comments_query contractId) (docs w) in
    ∃ res,
      (listAllComments contractId (Some N) w).1 = Resolved res
      ∧ res = take (Z.to_nat N) all
      ∧ (Z.of_nat (length res) ≤ N)%Z
      ∧ Z.of_nat (length res) = Z.min N (Z.of_nat (length all))
      ∧ created_desc res
      ∧ (listAllComments contractId None w).1 = Resolved all
      ∧ created_desc all
      ∧ (∀ d, d ∈ all ↔
              ∃ i, docs w !! ["contracts"; contractId; "comments"; i] = Some d
                   ∧ is_Some (obj_lookup "createdTime" d)).
Proof.
  intros contractId N w HN Hr1 Hr2 all.
  destruct (all_comments contractId (docs w)) as (Hsorted & Hmem & _).
  fold all in Hsorted, Hmem.
  exists (take (Z.to_nat N) all).
  assert (Hlen : Z.of_nat (length (take (Z.to_nat N) all))
                 = Z.min N (Z.of_nat (length all)))
    by (rewrite length_take; lia).
  split.
  { unfold listAllComments, truthy. fold (comments_query contractId).
    destruct (Z.eqb_spec N 0) as [-> | _]; [lia |]. cbn [negb].
    unfold bind, limit. destruct (Z.leb_spec N 0) as [? | _]; [lia |].
    unfold ret, getValues. by rewrite Hr1. }
  split; [done |]. split; [lia |]. split; [done |].
  split; [by apply StronglySorted_take |].
  split; [| done].
  unfold listAllComments, bind, ret, getValues.
  fold (comments_query contractId). by rewrite Hr2.
Qed.

Lemma listAllComments_bounded_witness :
  ∃ res,
    (listAllComments "c1" (Some 1) tie_world).1 = Resolved res
    ∧ res = take (Z.to_nat 1) (exec_query (comments_query "c1") (docs tie_world))
    ∧ (Z.of_nat (length res) ≤ 1)%Z
    ∧ Z.of_nat (length res)
      = Z.min 1 (Z.of_nat (length (exec_query (comments_query "c1")
                                     (docs tie_world))))
    ∧ created_desc res
    ∧ (listAllComments "c1" None tie_world).1
      = Resolved (exec_query (comments_query "c1") (docs tie_world))
    ∧ created_desc (exec_query (comments_query "c1") (docs tie_world))
    ∧ (∀ d, d ∈ exec_query (comments_query "c1") (docs tie_world) ↔
            ∃ i, docs tie_world !! ["contracts"; "c1"; "comments"; i] = Some d
                 ∧ is_Some (obj_lookup "createdTime" d)).
Proof.
  apply (listAllComments_bounded "c1" 1 tie_world); [lia | reflexivity ..].
Defined.

(** C1 as stated fails for a maximum count of zero: the listing of a market
    with one comment returns that comment, more than zero results. *)
Lemma listAllComments_zero_exceeds :
  ∃ res,
    (listAllComments "c1" (Some 0) tie_world).1 = Resolved res
    ∧ ¬ (Z.of_nat (length res) ≤ 0)%Z.
Proof.
  exists [[("id", VStr "z"); ("createdTime", VNum 5);
           ("commentType", VStr "contract"); ("contractId", VStr "c1")]].
  split; [by vm_compute | simpl; lia].
Qed.

(** C10. A maximum count of zero is treated like an omitted one: no limit
    is put on the query, and the call does what the call without a count
    does, returning all of the market's comments when the store serves the
    read: every document stored at [contracts/<contractId>/comments/<id>]
    that carries a creation time, and nothing else, most recent first. *)
Theorem listAllComments_zero_is_unbounded :
  ∀ (contractId : string) (w : World),
    listAllComments contractId (Some 0) w = listAllComments contractId None w
    ∧ trace (listAllComments contractId (Some 0) w).2
      = trace w ++ [EvGetDocs (comments_query contractId)]
    ∧ q_limit (comments_query contractId) = None
    ∧ (listAllComments contractId (Some 0) w).1
      = (if read_refused w (comments_query contractId)
         then Rejected "read refused"
         else Resolved (exec_query (comments_query contractId) (docs w)))
    ∧ created_desc (exec_query (comments_query contractId) (docs w))
    ∧ (∀ d, d ∈ exec_query (comments_query contractId) (docs w) ↔
            ∃ i, docs w !! ["contracts"; contractId; "comments"; i] = Some d
                 ∧ is_Some (obj_lookup "createdTime" d)).
Proof.
  intros contractId w. split; [reflexivity |].
  destruct (all_comments contractId (docs w)) as (Hsorted & Hmem & _).
  unfold listAllComments, truthy, bind, ret, getValues.
  fold (comments_query contractId). cbn [Z.eqb negb].
  by destruct (read_refused w (comments_query contractId)).
Qed.

(** ** The slug endpoint *)

(** One run of the handler, by the outcome of the slug lookup and of the two
    fetches. *)
Lemma handler_run toFullMarket (req : Request) (res : Response) (w : World) :
  handler toFullMarket req res w
  = let res1 := setHeader "Access-Control-Allow-Origin" "*" res in
    let w1 := log (EvGetContractFromSlug (req_slug req)) (log EvApplyCors w) in
    match contract_of_slug w (req_slug req) with
    | Rejected e => (Rejected e, w1)
    | Resolved None =>
        json (VObj [("error", VStr "Contract not found")]) (status 404 res1) w1
    | Resolved (Some c) =>
        let q := comments_query (contract_id c) in
        let w2 := log (EvGetDocs q) (log (EvListAllBets (contract_id c)) w1) in
        match bets_of w (contract_id c), read_refused w q with
        | Resolved bets, false =>
            json
              (VObj
                 (obj_spread
                    [("comments", VArr (VObj <$> exec_query q (docs w)));
                     ("bets", VArr (VObj <$> bets))]
                    (toFullMarket c)))
              (status 200 (setHeader "Cache-Control" "max-age=0" res1)) w2
        | Resolved _, true => (Rejected "read refused", w2)
        | Rejected e, refused =>
            (Rejected
               (if refused
                then if first_fails_first w then e else "read refused"
                else e),
             w2)
        end
    end.
Proof.
  unfold handler, bind, applyCorsHeaders, getContractFromSlug.
  cbn [contract_of_slug log allow_origin CORS_UNRESTRICTED].
  destruct (contract_of_slug w (req_slug req)) as [[c |] | e]; try reflexivity.
  unfold promise_all2, listAllBets, listAllComments, bind, ret, getValues.
  fold (comments_query (contract_id c)).
  cbn [bets_of read_refused first_fails_first log docs].
  destruct (bets_of w (contract_id c)) as [bets | e];
    destruct (read_refused w (comments_query (contract_id c))); reflexivity.
Qed.

(** C3. For every request whose slug does not resolve to a market, the
    handler responds with status 404 and the body
    [{ error: 'Contract not found' }], and between the slug lookup and the
    response it performs no bets fetch and no comments fetch. *)
Theorem handler_not_found :
  ∀ toFullMarket (req : Request) (res : Response) (w : World),
    contract_of_slug w (req_slug req) = Resolved None →
    let r := handler toFullMarket req res w in
    ∃ sent,
      r.1 = Resolved sent
      ∧ statusCode sent = 404
      ∧ body sent = Some (VObj [("error", VStr "Contract not found")])
      ∧ trace r.2
        = trace w ++ [EvApplyCors; EvGetContractFromSlug (req_slug req);
                      EvRespond sent]
      ∧ Forall (λ e, is_fetch e = false) (drop (length (trace w)) (trace r.2))
      ∧ docs r.2 = docs w.
Proof.
  intros toFullMarket req res w Hslug r. subst r.
  rewrite handler_run, Hslug. cbv zeta. unfold json. cbn [fst snd log trace docs].
  eexists. split; [reflexivity |]. split; [reflexivity |].
  split; [reflexivity |].
  rewrite <- !app_assoc. cbn [app]. split; [reflexivity |].
  split; [| reflexivity].
  rewrite drop_app_length. by repeat constructor.
Qed.

(** C4. For every request whose slug resolves to a market, when the two
    fetches succeed, the handler responds with status 200, the header
    [Cache-Control: max-age=0], and a body that holds the market's bets, all
    of the market's comments (fetched without a count bound, most recent
    first: every document stored at [contracts/<id>/comments/<comment id>]
    that carries a creation time, and nothing else) and every field of the
    market's public projection; both fetches are made before the response is
    sent. *)
Theorem handler_found :
  ∀ toFullMarket (req : Request) (res : Response) (w : World)
    (contract : Contract) (bets : list object),
    contract_of_slug w (req_slug req) = Resolved (Some contract) →
    bets_of w (contract_id contract) = Resolved bets →
    read_refused w (comments_query (contract_id contract)) = false →
    NoDup (toFullMarket contract).*1 →
    obj_lookup "bets" (toFullMarket contract) = None →
    obj_lookup "comments" (toFullMarket contract) = None →
    let comments :=
      exec_query (comments_query (contract_id contract)) (docs w) in
    let r := handler toFullMarket req res w in
    ∃ sent fields,
      r.1 = Resolved sent
      ∧ statusCode sent = 200
      ∧ headers sent !! "Cache-Control" = Some "max-age=0"
      ∧ body sent = Some (VObj fields)
      ∧ obj_lookup "bets" fields = Some (VArr (VObj <$> bets))
      ∧ obj_lookup "comments" fields = Some (VArr (VObj <$> comments))
      ∧ (∀ k v, obj_lookup k (toFullMarket contract) = Some v →
                obj_lookup k fields = Some v)
      ∧ q_limit (comments_query (contract_id contract)) = None
      ∧ created_desc comments
      ∧ (∀ d, d ∈ comments ↔
              ∃ i, docs w !! ["contracts"; contract_id contract; "comments"; i]
                   = Some d
                   ∧ is_Some (obj_lookup "createdTime" d))
      ∧ trace r.2
        = trace w ++ [EvApplyCors; EvGetContractFromSlug (req_slug req);
                      EvListAllBets (contract_id contract);
                      EvGetDocs (comments_query (contract_id contract));
                      EvRespond sent].
Proof.
  intros toFullMarket req res w contract bets Hslug Hbets Hread Hnd Hb Hc
    comments r.
  destruct (all_comments (contract_id contract) (docs w)) as (_ & Hmem & _).
  subst r. rewrite handler_run, Hslug. cbv zeta. rewrite Hbets, Hread.
  unfold json. cbn [fst snd log trace]. fold comments.
  eexists _, _. split; [reflexivity |]. split; [reflexivity |].
  split; [apply lookup_insert_eq |]. split; [reflexivity |].
  split; [by rewrite obj_lookup_spread_absent |].
  split; [by rewrite obj_lookup_spread_absent |].
  split; [intros k v Hk; by apply obj_lookup_spread_present |].
  split; [reflexivity |].
  split; [by apply exec_query_created_desc |].
  split; [exact Hmem |].
  rewrite <- !app_assoc. reflexivity.
Qed.

(** C5, amended. Every response of the handler carries the any-origin CORS
    header.  The 200 response also carries [Cache-Control: max-age=0]; the
    404 response carries no caching directive of the handler's: its headers
    are those the response had, with the CORS header added. *)
Theorem handler_headers :
  ∀ toFullMarket (req : Request) (res sent : Response) (w w' : World),
    handler toFullMarket req res w = (Resolved sent, w') →
    last (trace w') = Some (EvRespond sent)
    ∧ headers sent !! "Access-Control-Allow-Origin" = Some "*"
    ∧ ((statusCode sent = 200
        ∧ headers sent !! "Cache-Control" = Some "max-age=0")
       ∨ (statusCode sent = 404
          ∧ headers sent
            = <["Access-Control-Allow-Origin" := "*"]> (headers res))).
Proof.
  intros toFullMarket req res sent w w'. rewrite handler_run. cbv zeta.
  destruct (contract_of_slug w (req_slug req)) as [[c |] | e]; [| | done].
  - destruct (bets_of w (contract_id c)) as [bets | e]; [| done].
    destruct (read_refused w (comments_query (contract_id c))); [done |].
    unfold json. intros [= <- <-]. cbn [log trace headers statusCode status setHeader].
    split; [apply last_snoc |].
    split; [by rewrite lookup_insert_ne, lookup_insert_eq |].
    left. split; [done | apply lookup_insert_eq].
  - unfold json. intros [= <- <-]. cbn [log trace headers statusCode status setHeader].
    split; [apply last_snoc |].
    split; [apply lookup_insert_eq |].
    right. done.
Qed.

Lemma handler_not_found_witness :
  ∃ sent,
    (handler demo_toFullMarket (mkRequest "unknown-slug") new_response
       market_world).1 = Resolved sent
    ∧ statusCode sent = 404
    ∧ body sent = Some (VObj [("error", VStr "Contract not found")])
    ∧ trace (handler demo_toFullMarket (mkRequest "unknown-slug") new_response
               market_world).2
      = trace market_world
        ++ [EvApplyCors; EvGetContractFromSlug "unknown-slug"; EvRespond sent]
    ∧ Forall (λ e, is_fetch e = false)
        (drop (length (trace market_world))
           (trace (handler demo_toFullMarket (mkRequest "unknown-slug")
                     new_response market_world).2))
    ∧ docs (handler demo_toFullMarket (mkRequest "unknown-slug") new_response
              market_world).2
      = docs market_world.
Proof.
  apply (handler_not_found demo_toFullMarket (mkRequest "unknown-slug")
           new_response market_world).
  reflexivity.
Defined.

Lemma handler_found_witness :
  ∃ sent fields,
    (handler demo_toFullMarket (mkRequest "valid-slug") new_response
       market_world).1 = Resolved sent
    ∧ statusCode sent = 200
    ∧ headers sent !! "Cache-Control" = Some "max-age=0"
    ∧ body sent = Some (VObj fields)
    ∧ obj_lookup "bets" fields
      = Some (VArr (VObj <$> [[("id", VStr "b1"); ("amount", VNum 10)]]))
    ∧ obj_lookup "comments" fields
      = Some (VArr (VObj <$> exec_query (comments_query "c1")
                                (docs market_world)))
    ∧ (∀ k v, obj_lookup k (demo_toFullMarket demo_contract) = Some v →
              obj_lookup k fields = Some v)
    ∧ q_limit (comments_query "c1") = None
    ∧ created_desc (exec_query (comments_query "c1") (docs market_world))
    ∧ (∀ d, d ∈ exec_query (comments_query "c1") (docs market_world) ↔
            ∃ i, docs market_world !! ["contracts"; "c1"; "comments"; i]
                 = Some d
                 ∧ is_Some (obj_lookup "createdTime" d))
    ∧ trace (handler demo_toFullMarket (mkRequest "valid-slug") new_response
               market_world).2
      = trace market_world
        ++ [EvApplyCors; EvGetContractFromSlug "valid-slug";
            EvListAllBets "c1"; EvGetDocs (comments_query "c1");
            EvRespond sent].
Proof.
  apply (handler_found demo_toFullMarket (mkRequest "valid-slug") new_response
           market_world demo_contract
           [[("id", VStr "b1"); ("amount", VNum 10)]]).
  - reflexivity.
  - reflexivity.
  - reflexivity.
  - apply (bool_decide_unpack _). vm_compute. exact I.
  - reflexivity.
  - reflexivity.
Defined.

Lemma handler_headers_witness :
  last (trace (handler demo_toFullMarket (mkRequest "valid-slug") new_response
                 market_world).2)
  = Some (EvRespond
            (sent_response
               (handler demo_toFullMarket (mkRequest "valid-slug")
                  new_response market_world).1))
  ∧ headers
      (sent_response
         (handler demo_toFullMarket (mkRequest "valid-slug") new_response
            market_world).1)
      !! "Access-Control-Allow-Origin" = Some "*"
  ∧ ((statusCode
        (sent_response
           (handler demo_toFullMarket (mkRequest "valid-slug") new_response
              market_world).1) = 200
      ∧ headers
          (sent_response
             (handler demo_toFullMarket (mkRequest "valid-slug") new_response
                market_world).1)
          !! "Cache-Control" = Some "max-age=0")
     ∨ (statusCode
          (sent_response
             (handler demo_toFullMarket (mkRequest "valid-slug") new_response
                market_world).1) = 404
        ∧ headers
            (sent_response
               (handler demo_toFullMarket (mkRequest "valid-slug")
                  new_response market_world).1)
          = <["Access-Control-Allow-Origin" := "*"]> (headers new_response))).
Proof.
  apply (handler_headers demo_toFullMarket (mkRequest "valid-slug")
           new_response
           (sent_response
              (handler demo_toFullMarket (mkRequest "valid-slug")
                 new_response market_world).1)
           market_world
           (handler demo_toFullMarket (mkRequest "valid-slug") new_response
              market_world).2).
  vm_compute. reflexivity.
Defined.

(** C5 as stated fails for the 404 response: it carries no caching
    directive. *)
Lemma not_found_response_has_no_cache_header :
  ∃ sent,
    (handler demo_toFullMarket (mkRequest "unknown-slug") new_response
       market_world).1 = Resolved sent
    ∧ statusCode sent = 404
    ∧ headers sent !! "Cache-Control" = None.
Proof.
  exists (sent_response
            (handler demo_toFullMarket (mkRequest "unknown-slug") new_response
               market_world).1).
  split; [by vm_compute |]. split; by vm_compute.
Qed.

(** ** Recent comments and per-user comments *)

Lemma fs_compare_num_gt (x : value) (b : Z) :
  Nat.eqb (type_order x) (type_order (VNum b)) = true
  ∧ fs_compare x (VNum b) = Gt
  ↔ ∃ t, x = VNum t ∧ b < t.
Proof.
  split.
  - intros [Ht Hc]. destruct x; try done. exists z. split; [done |].
    unfold fs_compare in Hc. cbn in Hc.
    destruct (Z.compare_spec z b); try done; lia.
  - intros (t & -> & Hlt). split; [done |].
    unfold fs_compare. cbn.
    by rewrite (proj2 (Z.compare_gt_iff t b)) by lia.
Qed.

Lemma value_eqb_str_iff (x : value) (s : string) :
  value_eqb x (VStr s) = true ↔ x = VStr s.
Proof.
  split; [apply value_eqb_str |]. intros ->. simpl. apply String.eqb_refl.
Qed.

(** C8. The recent-comments query is computed once, when the module is
    loaded: its lower bound on the creation time is the clock reading at
    load time minus three days.  The one-shot accessor and the subscription
    accessor use this same query value on every call, whatever the clock
    reads by then: the comments they select are those created after the bound
    fixed at load time. *)
Theorem recentCommentsQuery_fixed_at_load :
  ∀ w0 : World,
    ∃ m,
      load_module w0 = (Resolved m, w0)
      ∧ DAY_IN_MS = 86400000
      ∧ recentCommentsQuery m
        = mkQuery (CollectionGroup "comments")
            [("createdTime", OpGt, VNum (clock w0 - 3 * DAY_IN_MS))]
            [("createdTime", Desc)] None
      ∧ ∀ (w : World) (setComments : string),
          trace (getRecentComments m w).2
          = trace w ++ [EvGetDocs (recentCommentsQuery m)]
          ∧ (getRecentComments m w).1
            = (if read_refused w (recentCommentsQuery m)
               then Rejected "read refused"
               else Resolved (exec_query (recentCommentsQuery m) (docs w)))
          ∧ listeners (listenForRecentComments m setComments w).2
            = listeners w ++ [(recentCommentsQuery m, setComments)]
          ∧ created_desc (exec_query (recentCommentsQuery m) (docs w))
          ∧ (∀ d, d ∈ exec_query (recentCommentsQuery m) (docs w) ↔
                  ∃ parent i t,
                    docs w !! (parent ++ ["comments"; i]) = Some d
                    ∧ obj_lookup "createdTime" d = Some (VNum t)
                    ∧ clock w0 - 3 * DAY_IN_MS < t).
Proof.
  intros w0. eexists. split; [reflexivity |]. split; [reflexivity |].
  split; [reflexivity |].
  intros w setComments. cbn [recentCommentsQuery].
  set (q := query (collectionGroup "comments")
              [where_ "createdTime" OpGt (VNum (clock w0 - 3 * DAY_IN_MS));
               orderBy "createdTime" Desc]).
  assert (Hm : ∀ p d,
            matches q (p, d) = true ↔
            (∃ parent i, p = parent ++ ["comments"; i])
            ∧ ∃ t, obj_lookup "createdTime" d = Some (VNum t)
                   ∧ clock w0 - 3 * DAY_IN_MS < t).
  { intros p d. unfold matches, has_fields, where_holds.
    cbn [q query fold_left add_constraint where_ orderBy collectionGroup
         q_source q_filters q_orders forallb fst snd app].
    rewrite !andb_true_r, !andb_true_iff, in_collection_group,
      bool_decide_eq_true.
    destruct (obj_lookup "createdTime" d) as [x |].
    - rewrite andb_true_iff, bool_decide_eq_true, fs_compare_num_gt.
      split.
      + intros [[Hp (t & -> & Hlt)] _]. eauto.
      + intros [Hp (t & [= ->] & Hlt)]. eauto.
    - split; [by intros [[_ ?] _] | by intros [_ (t & ? & _)]]. }
  split.
  { unfold getRecentComments, getValues. cbn [recentCommentsQuery]. fold q.
    by destruct (read_refused w q). }
  split.
  { unfold getRecentComments, getValues. cbn [recentCommentsQuery]. fold q.
    by destruct (read_refused w q). }
  split; [reflexivity |].
  split; [by apply exec_query_created_desc |].
  intros d. split.
  - intros (p & Hd & Hmatch)%elem_of_exec_query.
    apply Hm in Hmatch as [(parent & i & ->) (t & Hct & Hlt)].
    by exists parent, i, t.
  - intros (parent & i & t & Hd & Hct & Hlt).
    apply (exec_query_complete q _ _ _ eq_refl Hd).
    apply Hm. split; [by exists parent, i | by exists t].
Qed.

(** C9. For every user id, the value that [getUserCommentsQuery] returns is
    a query, not yet executed, over all comment sub-collections, filtered by
    author and by the comment type [contract] and sorted by creation time,
    descending.  When it is executed and the store serves the read, it
    returns exactly the comments whose [userId] is the requested id and whose
    [commentType] is [contract], most recent first, and so never a group or a
    post comment. *)
Theorem getUserCommentsQuery_results :
  ∀ (userId : string) (w : World),
    read_refused w (getUserCommentsQuery userId) = false →
    getUserCommentsQuery userId
    = mkQuery (CollectionGroup "comments")
        [("userId", OpEq, VStr userId); ("commentType", OpEq, VStr "contract")]
        [("createdTime", Desc)] None
    ∧ ∃ res,
        (getValues (getUserCommentsQuery userId) w).1 = Resolved res
        ∧ Forall (λ d, obj_lookup "userId" d = Some (VStr userId)
                       ∧ obj_lookup "commentType" d = Some (VStr "contract"))
            res
        ∧ Forall (λ d, obj_lookup "commentType" d ≠ Some (VStr "group")
                       ∧ obj_lookup "commentType" d ≠ Some (VStr "post"))
            res
        ∧ created_desc res
        ∧ (∀ d, d ∈ res ↔
                ∃ parent i,
                  docs w !! (parent ++ ["comments"; i]) = Some d
                  ∧ obj_lookup "userId" d = Some (VStr userId)
                  ∧ obj_lookup "commentType" d = Some (VStr "contract")
                  ∧ is_Some (obj_lookup "createdTime" d)).
Proof.
  intros userId w Hread. split; [reflexivity |].
  set (q := getUserCommentsQuery userId) in *.
  assert (Hm : ∀ p d,
            matches q (p, d) = true ↔
            (∃ parent i, p = parent ++ ["comments"; i])
            ∧ obj_lookup "userId" d = Some (VStr userId)
            ∧ obj_lookup "commentType" d = Some (VStr "contract")
            ∧ is_Some (obj_lookup "createdTime" d)).
  { intros p d. unfold matches, has_fields, where_holds.
    cbn [q getUserCommentsQuery query fold_left add_constraint where_ orderBy
         collectionGroup q_source q_filters q_orders forallb fst snd app].
    rewrite !andb_true_r, !andb_true_iff, in_collection_group,
      bool_decide_eq_true.
    destruct (obj_lookup "userId" d) as [x |],
             (obj_lookup "commentType" d) as [y |];
      rewrite ?value_eqb_str_iff; naive_solver. }
  exists (exec_query q (docs w)).
  split; [unfold getValues; by rewrite Hread |].
  assert (Hres : ∀ d, d ∈ exec_query q (docs w) ↔
            ∃ parent i,
              docs w !! (parent ++ ["comments"; i]) = Some d
              ∧ obj_lookup "userId" d = Some (VStr userId)
              ∧ obj_lookup "commentType" d = Some (VStr "contract")
              ∧ is_Some (obj_lookup "createdTime" d)).
  { intros d. split.
    - intros (p & Hd & Hmatch)%elem_of_exec_query.
      apply Hm in Hmatch as [(parent & i & ->) ?]. by exists parent, i.
    - intros (parent & i & Hd & H).
      apply (exec_query_complete q _ _ _ eq_refl Hd).
      apply Hm. split; [by exists parent, i | done]. }
  split.
  { apply Forall_forall. intros d (parent & i & _ & ? & ? & _)%Hres. done. }
  split.
  { apply Forall_forall. intros d (parent & i & _ & _ & Ht & _)%Hres.
    rewrite Ht. split; congruence. }
  split; [by apply exec_query_created_desc | done].
Qed.

Example getUserCommentsQuery_mixed :
  (getValues (getUserCommentsQuery "u1") mixed_world).1
  = Resolved [[("id", VStr "x"); ("userId", VStr "u1"); ("createdTime", VNum 4);
               ("commentType", VStr "contract"); ("contractId", VStr "c1")]].
Proof. by vm_compute. Qed.

Lemma getUserCommentsQuery_results_witness :
  getUserCommentsQuery "u1"
  = mkQuery (CollectionGroup "comments")
      [("userId", OpEq, VStr "u1"); ("commentType", OpEq, VStr "contract")]
      [("createdTime", Desc)] None
  ∧ ∃ res,
      (getValues (getUserCommentsQuery "u1") mixed_world).1 = Resolved res
      ∧ Forall (λ d, obj_lookup "userId" d = Some (VStr "u1")
                     ∧ obj_lookup "commentType" d = Some (VStr "contract"))
          res
      ∧ Forall (λ d, obj_lookup "commentType" d ≠ Some (VStr "group")
                     ∧ obj_lookup "commentType" d ≠ Some (VStr "post"))
          res
      ∧ created_desc res
      ∧ (∀ d, d ∈ res ↔
              ∃ parent i,
                docs mixed_world !! (parent ++ ["comments"; i]) = Some d
                ∧ obj_lookup "userId" d = Some (VStr "u1")
                ∧ obj_lookup "commentType" d = Some (VStr "contract")
                ∧ is_Some (obj_lookup "createdTime" d)).
Proof.
  apply (getUserCommentsQuery_results "u1" mixed_world). reflexivity.
Defined.

(** The bound of the recent-comments query does not follow the clock: a
    module loaded at time 10 still selects, a week later, a comment written
    at time 8. *)
Example recent_comments_stale :
  ∃ m w1,
    load_module mixed_world = (Resolved m, w1)
    ∧ (getRecentComments m
         (mkWorld (docs w1) (write_refused w1) (read_refused w1) (listeners w1)
            (clock w1 + 7 * DAY_IN_MS) (auto_id w1) (ids_used w1)
            (contract_of_slug w1) (bets_of w1) (first_fails_first w1)
            (trace w1))).1
      = Resolved
          [[("id", VStr "z"); ("userId", VStr "u2"); ("createdTime", VNum 8);
            ("commentType", VStr "contract"); ("contractId", VStr "c2")];
           [("id", VStr "y"); ("userId", VStr "u1"); ("createdTime", VNum 6);
            ("commentType", VStr "group"); ("groupId", VStr "g1")];
           [("id", VStr "x"); ("userId", VStr "u1"); ("createdTime", VNum 4);
            ("commentType", VStr "contract"); ("contractId", VStr "c1")]].
Proof. eexists _, _. split; [reflexivity | by vm_compute]. Qed.

(** * Further properties *)

(** ** Query results depend on the matching documents only *)

Lemma NoDup_List_filter {A : Type} (f : A → bool) (l : list A) :
  NoDup l → NoDup (List.filter f l).
Proof.
  induction 1 as [| x l Hx Hl IH]; simpl; [constructor |].
  destruct (f x); [| done]. constructor; [| done].
  rewrite list_elem_of_In, filter_In, <- list_elem_of_In. tauto.
Qed.

Lemma select_NoDup (q : Query) (docs : gmap Path object) :
  NoDup (select q docs).
Proof.
  rewrite select_perm. apply NoDup_List_filter, NoDup_map_to_list.
Qed.

Lemma lexc_Eq (c d : comparison) : lexc c d = Eq → c = Eq ∧ d = Eq.
Proof. by destruct c. Qed.

Lemma entry_cmp_Eq (os : list (string * Direction)) (x y : entry) :
  entry_cmp os x y = Eq → x.1 = y.1.
Proof.
  unfold entry_cmp. intros [_ H]%lexc_Eq. apply path_cmp_eq.
  by destruct (last_direction os), (path_cmp x.1 y.1).
Qed.

Lemma select_ext (q : Query) (docs1 docs2 : gmap Path object) :
  (∀ p d, matches q (p, d) = true →
          (docs1 !! p = Some d ↔ docs2 !! p = Some d)) →
  select q docs1 = select q docs2.
Proof.
  intros Hext.
  assert (Hsame : ∀ e, e ∈ select q docs1 ↔ e ∈ select q docs2).
  { intros [p d]. rewrite !elem_of_select. simpl.
    split; intros [Hd Hm]; (split; [by apply (Hext p d Hm) | done]). }
  apply (StronglySorted_unique_strong (cmp_le (entry_cmp (q_orders q)))).
  - intros [p1 d1] [p2 d2] H1 H2 Hle Hge.
    assert (Hp : p1 = p2).
    { apply (entry_cmp_Eq (q_orders q) (p1, d1) (p2, d2)).
      unfold cmp_le in Hle, Hge.
      rewrite (cmp_flip (entry_cmp (q_orders q)) (p1, d1) (p2, d2)) in Hge.
      by destruct (entry_cmp (q_orders q) (p1, d1) (p2, d2)). }
    subst p2. apply Hsame in H1.
    apply elem_of_select in H1 as [H1 _], H2 as [H2 _]. simpl in *. congruence.
  - apply select_sorted.
  - apply select_sorted.
  - apply NoDup_Permutation; [apply select_NoDup .. | done].
Qed.

Lemma exec_query_ext (q : Query) (docs1 docs2 : gmap Path object) :
  (∀ p d, matches q (p, d) = true →
          (docs1 !! p = Some d ↔ docs2 !! p = Some d)) →
  exec_query q docs1 = exec_query q docs2.
Proof. intros H. unfold exec_query. by rewrite (select_ext q docs1 docs2 H). Qed.

(** A new matching document adds one entry to the selection. *)
Lemma select_insert_new (q : Query) (docs : gmap Path object) (p : Path)
    (d : object) :
  docs !! p = None → matches q (p, d) = true →
  select q (<[p := d]> docs) ≡ₚ (p, d) :: select q docs.
Proof.
  intros Hnone Hm. apply NoDup_Permutation.
  - apply select_NoDup.
  - constructor; [| apply select_NoDup].
    rewrite elem_of_select. simpl. intros [? _]. congruence.
  - intros [p' d']. rewrite elem_of_cons, !elem_of_select. simpl.
    destruct (decide (p' = p)) as [-> | Hne].
    + rewrite lookup_insert_eq, Hnone. split.
      * intros [[= ->] _]. by left.
      * intros [[= ->] | [? _]]; done.
    + rewrite lookup_insert_ne by done. split; [by right |].
      intros [[= -> ->] | H]; done.
Qed.

(** ** The three creation entry points *)

Lemma create_on_run t parentId content user bounty answer reply w :
  create_on t parentId content user bounty answer reply w
  = createComment parentId (extra_of t parentId answer) content user
      (new_ref t parentId w) reply (bounty_of t bounty) (use_id w).
Proof. by destruct t. Qed.

(** One run of an entry point, by whether the store refuses the write. *)
Lemma create_on_outcome t parentId content user bounty answer reply w :
  create_on t parentId content user bounty answer reply w
  = let ref := new_ref t parentId w in
    let c := new_comment t parentId content user answer reply w in
    let w1 :=
      log (EvSetDoc (ref_path ref) c)
        (log (EvTrack (parent_tag t +:+ " message")
                (tracked_props parentId (extra_of t parentId answer) user ref
                   reply (bounty_of t bounty)))
           (use_id w)) in
    if write_refused w (ref_path ref) c
    then (Rejected "write refused", w1)
    else (Resolved tt, put_doc (ref_path ref) c w1).
Proof. rewrite create_on_run, createComment_run. by destruct t. Qed.

Lemma comments_path_inj t t' parentId parentId' (i i' : string) :
  comments_path t parentId ++ [i] = comments_path t' parentId' ++ [i'] →
  t = t' ∧ parentId = parentId' ∧ i = i'.
Proof. destruct t, t'; simpl; intros [=]; by subst. Qed.

Lemma new_comment_tag t parentId content user answer reply w :
  obj_lookup "commentType"
    (new_comment t parentId content user answer reply w)
  = Some (VStr (parent_tag t)).
Proof.
  unfold new_comment. rewrite written_comment_commentType. by destruct t.
Qed.

Lemma new_comment_parent t parentId content user answer reply w :
  obj_lookup (parent_field t)
    (new_comment t parentId content user answer reply w)
  = Some (VStr parentId).
Proof.
  unfold new_comment. rewrite written_comment_lookup. by destruct t.
Qed.


Lemma comments_path_literal t parentId (i : string) :
  comments_path t parentId ++ [i] = comment_path t parentId i.
Proof. by destruct t. Qed.

Lemma comment_path_inj t t' parentId parentId' (i i' : string) :
  comment_path t parentId i = comment_path t' parentId' i' →
  t = t' ∧ parentId = parentId' ∧ i = i'.
Proof. rewrite <- !comments_path_literal. apply comments_path_inj. Qed.

(** X1. For a parent id that is a document identifier, each of the three
    creation entry points takes one automatic id, emits one analytics event,
    named after its parent type and carrying the parent id as [surfaceId],
    the new id as [commentId] and the bounty flag for markets only, and then
    attempts one write, at [<parents>/<parentId>/comments/<new id>], of a
    record with the new id, the type tag, the parent id and the clock
    reading.  Whatever the outcome, no other document, no subscription and
    no other part of the store is touched; the document at that path is the
    new record when the write is accepted and is left as it was when the
    write is refused. *)
Theorem create_on_single_write :
  ∀ t parentId content user bounty answer reply (w : World),
    valid_id parentId = true →
    let r := create_on t parentId content user bounty answer reply w in
    let path := comment_path t parentId (auto_id w (ids_used w)) in
    ∃ props c,
      new_events w r.2
      = [EvTrack (parent_tag t +:+ " message") props; EvSetDoc path c]
      ∧ obj_lookup "surfaceId" props = Some (VStr parentId)
      ∧ obj_lookup "commentId" props = Some (VStr (auto_id w (ids_used w)))
      ∧ obj_lookup "onContractWithBounty" props
        = match t with ContractParent => Some (VBool bounty) | _ => None end
      ∧ obj_lookup "id" c = Some (VStr (auto_id w (ids_used w)))
      ∧ obj_lookup "commentType" c = Some (VStr (parent_tag t))
      ∧ obj_lookup (parent_field t) c = Some (VStr parentId)
      ∧ obj_lookup "createdTime" c = Some (VNum (clock w))
      ∧ r.1 = (if write_refused w path c
               then Rejected "write refused" else Resolved tt)
      ∧ docs r.2 !! path
        = (if write_refused w path c then docs w !! path else Some c)
      ∧ (∀ p, p ≠ path → docs r.2 !! p = docs w !! p)
      ∧ ids_used r.2 = S (ids_used w)
      ∧ listeners r.2 = listeners w.
Proof.
  intros t parentId content user bounty answer reply w _ r path.
  subst r. rewrite create_on_outcome. cbv zeta.
  change (ref_path (new_ref t parentId w))
    with (comments_path t parentId ++ [auto_id w (ids_used w)]).
  rewrite comments_path_literal. fold path.
  set (c := new_comment t parentId content user answer reply w).
  set (props := tracked_props parentId (extra_of t parentId answer) user
                  (new_ref t parentId w) reply (bounty_of t bounty)).
  assert (Hprops : ∀ k,
            obj_lookup k props
            = match obj_lookup k
                      (obj_literal
                         [("user", VObj user);
                          ("commentId", VStr (auto_id w (ids_used w)));
                          ("surfaceId", VStr parentId);
                          ("replyToCommentId", opt_str reply);
                          ("onContractWithBounty",
                           if String.eqb
                                (commentType (extra_of t parentId answer))
                                "contract"
                           then opt_bool (bounty_of t bounty)
                           else VUndefined)]) with
              | Some v => if is_undefined v then None else Some v
              | None => None
              end).
  { intros k. apply obj_lookup_removeUndefinedProps, obj_literal_NoDup. }
  exists props, c.
  split.
  { unfold new_events.
    destruct (write_refused w path c);
      cbn [snd log put_doc use_id trace];
      by rewrite <- app_assoc, drop_app_length. }
  split; [by rewrite Hprops |].
  split; [by rewrite Hprops |].
  split; [rewrite Hprops; by destruct t |].
  split; [apply written_comment_id |].
  split; [apply new_comment_tag |].
  split; [apply new_comment_parent |].
  split; [apply written_comment_createdTime |].
  destruct (write_refused w path c);
    cbn [fst snd log put_doc use_id docs ids_used listeners];
    (split; [done |]); (split; [by rewrite ?lookup_insert_eq |]);
    (split; [| done]); intros p Hp; by rewrite ?lookup_insert_ne.
Qed.

Lemma create_on_single_write_witness :
  ∃ props c,
    new_events demo_world
      (create_on ContractParent "c1" VNull demo_user true None None
         demo_world).2
    = [EvTrack (parent_tag ContractParent +:+ " message") props;
       EvSetDoc (comment_path ContractParent "c1" "a") c]
    ∧ obj_lookup "surfaceId" props = Some (VStr "c1")
    ∧ obj_lookup "commentId" props = Some (VStr "a")
    ∧ obj_lookup "onContractWithBounty" props = Some (VBool true)
    ∧ obj_lookup "id" c = Some (VStr "a")
    ∧ obj_lookup "commentType" c = Some (VStr (parent_tag ContractParent))
    ∧ obj_lookup (parent_field ContractParent) c = Some (VStr "c1")
    ∧ obj_lookup "createdTime" c = Some (VNum 5)
    ∧ (create_on ContractParent "c1" VNull demo_user true None None
         demo_world).1
      = (if write_refused demo_world (comment_path ContractParent "c1" "a") c
         then Rejected "write refused" else Resolved tt)
    ∧ docs (create_on ContractParent "c1" VNull demo_user true None None
              demo_world).2
        !! comment_path ContractParent "c1" "a"
      = (if write_refused demo_world (comment_path ContractParent "c1" "a") c
         then docs demo_world !! comment_path ContractParent "c1" "a"
         else Some c)
    ∧ (∀ p, p ≠ comment_path ContractParent "c1" "a" →
            docs (create_on ContractParent "c1" VNull demo_user true None None
                    demo_world).2
              !! p
            = docs demo_world !! p)
    ∧ ids_used (create_on ContractParent "c1" VNull demo_user true None None
                  demo_world).2
      = S (ids_used demo_world)
    ∧ listeners (create_on ContractParent "c1" VNull demo_user true None None
                   demo_world).2
      = listeners demo_world.
Proof.
  apply (create_on_single_write ContractParent "c1" VNull demo_user true None
           None demo_world).
  reflexivity.
Defined.

(** X2. The three creation entry points keep the store well filed: when
    every comment document is stored under its own id, with the type tag and
    parent id of its collection and a numeric creation time, the same holds
    after any run of an entry point for a parent id that is a document
    identifier, whether the write is accepted or refused. *)
Theorem create_on_keeps_well_filed :
  ∀ t parentId content user bounty answer reply (w : World),
    valid_id parentId = true →
    well_filed (docs w) →
    well_filed
      (docs (create_on t parentId content user bounty answer reply w).2).
Proof.
  intros t parentId content user bounty answer reply w _ Hwf.
  rewrite create_on_outcome. cbv zeta.
  destruct (write_refused w _ _); cbn [snd log put_doc use_id docs]; [done |].
  intros t' parentId' i' d'. cbn [new_ref ref_path].
  rewrite comments_path_literal.
  destruct (decide (comment_path t parentId (auto_id w (ids_used w))
                    = comment_path t' parentId' i')) as [Heq | Hne].
  - rewrite Heq, lookup_insert_eq. intros [= <-].
    apply comment_path_inj in Heq as (<- & <- & <-).
    split; [apply written_comment_id |].
    split; [apply new_comment_tag |].
    split; [apply new_comment_parent |].
    eexists. apply written_comment_createdTime.
  - rewrite lookup_insert_ne by done. apply Hwf.
Qed.

Lemma demo_world_well_filed : well_filed (docs demo_world).
Proof.
  intros t parentId i d Hd. cbn [docs demo_world] in Hd.
  apply lookup_singleton_Some in Hd as [Hp <-].
  destruct t; simpl in Hp; try discriminate.
  injection Hp as <- <-. repeat split; try reflexivity. by eexists.
Qed.

Lemma create_on_keeps_well_filed_witness :
  well_filed
    (docs (create_on ContractParent "c1" VNull demo_user true (Some "YES") None
             demo_world).2).
Proof.
  apply (create_on_keeps_well_filed ContractParent "c1" VNull demo_user true
           (Some "YES") None demo_world).
  - reflexivity.
  - apply demo_world_well_filed.
Defined.

(** ** The three listing functions *)

Lemma list_on_run t parentId w :
  list_on t parentId w = getValues (by_created_desc (comments_path t parentId)) w.
Proof. by destruct t. Qed.

Lemma create_on_read_refused t parentId content user bounty answer reply w :
  read_refused (create_on t parentId content user bounty answer reply w).2
  = read_refused w.
Proof.
  rewrite create_on_outcome. cbv zeta. by destruct (write_refused w _ _).
Qed.

(** X3. For each parent type and each parent id that is a document
    identifier, the one-shot listing, when the store serves the read, returns
    exactly the documents stored at [<parents>/<parentId>/comments/<id>]
    that carry a creation time, most recent first; a document without a
    [createdTime] field is never listed.  In a well-filed store every listed
    comment has the type tag and the parent id asked for. *)
Theorem list_on_results :
  ∀ t parentId (w : World),
    valid_id parentId = true →
    read_refused w (by_created_desc (comments_path t parentId)) = false →
    ∃ res,
      (list_on t parentId w).1 = Resolved res
      ∧ docs (list_on t parentId w).2 = docs w
      ∧ created_desc res
      ∧ (∀ d, d ∈ res ↔
              ∃ i, docs w !! comment_path t parentId i = Some d
                   ∧ is_Some (obj_lookup "createdTime" d))
      ∧ (well_filed (docs w) →
         Forall (λ d, obj_lookup "commentType" d = Some (VStr (parent_tag t))
                      ∧ obj_lookup (parent_field t) d = Some (VStr parentId))
           res).
Proof.
  intros t parentId w _ Hread. rewrite list_on_run. unfold getValues.
  rewrite Hread. cbn [fst snd log docs].
  set (q := by_created_desc (comments_path t parentId)).
  assert (Hres : ∀ d, d ∈ exec_query q (docs w) ↔
            ∃ i, docs w !! comment_path t parentId i = Some d
                 ∧ is_Some (obj_lookup "createdTime" d)).
  { intros d. split.
    - intros (p & Hd & Hm)%elem_of_exec_query.
      apply matches_by_created_desc in Hm as [[i ->] Hct].
      rewrite comments_path_literal in Hd. by exists i.
    - intros (i & Hd & Hct). rewrite <- comments_path_literal in Hd.
      apply (exec_query_complete q _ _ _ eq_refl Hd).
      apply matches_by_created_desc. split; [by exists i | done]. }
  eexists. split; [reflexivity |]. split; [reflexivity |].
  split; [by apply exec_query_created_desc |]. split; [done |].
  intros Hwf. apply Forall_forall. intros d (i & Hd & _)%Hres.
  destruct (Hwf t parentId i d Hd) as (_ & ? & ? & _). done.
Qed.

Lemma list_on_results_witness :
  ∃ res,
    (list_on GroupParent "g1" demo_world).1 = Resolved res
    ∧ docs (list_on GroupParent "g1" demo_world).2 = docs demo_world
    ∧ created_desc res
    ∧ (∀ d, d ∈ res ↔
            ∃ i, docs demo_world !! comment_path GroupParent "g1" i = Some d
                 ∧ is_Some (obj_lookup "createdTime" d))
    ∧ (well_filed (docs demo_world) →
       Forall (λ d, obj_lookup "commentType" d
                    = Some (VStr (parent_tag GroupParent))
                    ∧ obj_lookup (parent_field GroupParent) d
                      = Some (VStr "g1"))
         res).
Proof.
  apply (list_on_results GroupParent "g1" demo_world); reflexivity.
Defined.

(** The listing of group [g1] in [demo_world] is its one comment. *)
Example list_on_demo :
  (list_on GroupParent "g1" demo_world).1
  = Resolved [[("id", VStr "k"); ("createdTime", VNum 3);
               ("commentType", VStr "group"); ("groupId", VStr "g1")]].
Proof. by vm_compute. Qed.

(** X4. Creating a comment under one parent leaves the listing of every
    other parent, of another type or of another id, as it was, the ids of
    both parents being document identifiers. *)
Theorem create_on_other_listing_unchanged :
  ∀ t parentId content user bounty answer reply t' parentId' (w : World),
    valid_id parentId = true →
    valid_id parentId' = true →
    (t, parentId) ≠ (t', parentId') →
    (list_on t' parentId'
       (create_on t parentId content user bounty answer reply w).2).1
    = (list_on t' parentId' w).1.
Proof.
  intros t parentId content user bounty answer reply t' parentId' w _ _ Hne.
  rewrite !list_on_run. unfold getValues.
  rewrite create_on_read_refused.
  destruct (read_refused w _); cbn [fst]; [done |].
  f_equal. apply exec_query_ext. intros p d Hm.
  apply matches_by_created_desc in Hm as [[i ->] _].
  rewrite create_on_outcome. cbv zeta.
  destruct (write_refused w _ _); cbn [snd log put_doc use_id docs]; [done |].
  rewrite lookup_insert_ne; [done |].
  cbn [new_ref ref_path]. intros (-> & -> & _)%comments_path_inj. done.
Qed.

Lemma create_on_other_listing_unchanged_witness :
  (list_on GroupParent "g1"
     (create_on ContractParent "c1" VNull demo_user true None None
        demo_world).2).1
  = (list_on GroupParent "g1" demo_world).1.
Proof.
  apply (create_on_other_listing_unchanged ContractParent "c1" VNull demo_user
           true None None GroupParent "g1" demo_world).
  - reflexivity.
  - reflexivity.
  - discriminate.
Defined.

(** X5. When an entry point resolves and its automatic id was free, the
    listing of that parent gains exactly the new comment: the listing after
    is a permutation of the new record and the listing before, one longer and
    still most recent first. *)
Theorem create_on_listing_grows :
  ∀ t parentId content user bounty answer reply (w w1 : World),
    create_on t parentId content user bounty answer reply w
    = (Resolved tt, w1) →
    docs w !! ref_path (new_ref t parentId w) = None →
    read_refused w (by_created_desc (comments_path t parentId)) = false →
    ∃ before after,
      (list_on t parentId w).1 = Resolved before
      ∧ (list_on t parentId w1).1 = Resolved after
      ∧ after ≡ₚ new_comment t parentId content user answer reply w :: before
      ∧ length after = S (length before)
      ∧ created_desc after.
Proof.
  intros t parentId content user bounty answer reply w w1 Hc Hfree Hread.
  assert (Hread1 : read_refused w1 = read_refused w).
  { rewrite <- (create_on_read_refused t parentId content user bounty answer
                  reply w). by rewrite Hc. }
  rewrite create_on_outcome in Hc. cbv zeta in Hc.
  destruct (write_refused w _ _); [done |]. injection Hc as <-.
  rewrite !list_on_run. unfold getValues. rewrite Hread1, Hread.
  cbn [fst snd log put_doc use_id docs].
  set (q := by_created_desc (comments_path t parentId)).
  set (c := new_comment t parentId content user answer reply w).
  assert (Hperm : exec_query q (<[ref_path (new_ref t parentId w) := c]> (docs w))
                  ≡ₚ c :: exec_query q (docs w)).
  { unfold exec_query. cbn [q by_created_desc query fold_left add_constraint
      orderBy coll_query collection q_limit apply_limit].
    fold q. rewrite select_insert_new; [done | done |].
    apply matches_by_created_desc. split; [by eexists |].
    unfold c, new_comment. by rewrite written_comment_createdTime. }
  eexists _, _. split; [reflexivity |]. split; [reflexivity |].
  split; [done |].
  split; [by rewrite Hperm |].
  by apply exec_query_created_desc.
Qed.

Lemma create_on_listing_grows_witness :
  ∃ before after,
    (list_on GroupParent "g1" demo_world).1 = Resolved before
    ∧ (list_on GroupParent "g1"
         (create_on GroupParent "g1" VNull demo_user false None None
            demo_world).2).1 = Resolved after
    ∧ after
      ≡ₚ new_comment GroupParent "g1" VNull demo_user None None demo_world
         :: before
    ∧ length after = S (length before)
    ∧ created_desc after.
Proof.
  apply (create_on_listing_grows GroupParent "g1" VNull demo_user false None
           None demo_world).
  - reflexivity.
  - reflexivity.
  - reflexivity.
Defined.

(** ** Creation and the cross-parent views *)


Lemma matches_recent_query (bound : Z) (p : Path) (d : object) :
  matches
    (query (collectionGroup "comments")
       [where_ "createdTime" OpGt (VNum bound); orderBy "createdTime" Desc])
    (p, d) = true
  ↔ (∃ parent i, p = parent ++ ["comments"; i])
    ∧ ∃ n, obj_lookup "createdTime" d = Some (VNum n) ∧ bound < n.
Proof.
  unfold matches, has_fields, where_holds.
  cbn [query fold_left add_constraint where_ orderBy collectionGroup
       q_source q_filters q_orders forallb fst snd app].
  rewrite !andb_true_r, !andb_true_iff, in_collection_group,
    bool_decide_eq_true.
  destruct (obj_lookup "createdTime" d) as [x |].
  - rewrite andb_true_iff, bool_decide_eq_true, fs_compare_num_gt.
    split.
    + intros [[Hp (n & -> & Hlt)] _]. eauto.
    + intros [Hp (n & [= ->] & Hlt)]. eauto.
  - split; [by intros [[_ ?] _] | by intros [_ (n & ? & _)]].
Qed.

Lemma comments_path_group t parentId (i : string) :
  ∃ parent j, comments_path t parentId ++ [i] = parent ++ ["comments"; j].
Proof.
  destruct t; simpl;
    [exists ["contracts"; parentId] | exists ["groups"; parentId]
    | exists ["posts"; parentId]]; by exists i.
Qed.



(** X7. A comment created through any entry point while the clock reads
    more than the load time of the module minus three days is among the
    recent comments that the module returns afterwards; one created while
    the clock reads no more than that bound is not. *)
Theorem created_comment_is_recent :
  ∀ t parentId content user bounty answer reply (w0 w w1 : World) m,
    (load_module w0).1 = Resolved m →
    create_on t parentId content user bounty answer reply w
    = (Resolved tt, w1) →
    read_refused w1 (recentCommentsQuery m) = false →
    ∃ res,
      (getRecentComments m w1).1 = Resolved res
      ∧ (clock w0 - 3 * DAY_IN_MS < clock w →
         new_comment t parentId content user answer reply w ∈ res)
      ∧ ((clock w ≤ clock w0 - 3 * DAY_IN_MS)%Z →
         new_comment t parentId content user answer reply w ∉ res).
Proof.
  intros t parentId content user bounty answer reply w0 w w1 m Hm Hc Hread.
  injection Hm as <-. cbn [recentCommentsQuery] in *.
  unfold getRecentComments, getValues. cbn [recentCommentsQuery].
  rewrite Hread. cbn [fst].
  eexists. split; [reflexivity |].
  set (c := new_comment t parentId content user answer reply w).
  assert (Hct : obj_lookup "createdTime" c = Some (VNum (clock w))).
  { unfold c, new_comment. apply written_comment_createdTime. }
  split.
  - intros Hlt.
    rewrite create_on_outcome in Hc. cbv zeta in Hc.
    destruct (write_refused w _ _); [done |]. injection Hc as <-.
    cbn [log put_doc use_id docs].
    eapply exec_query_complete; [reflexivity | apply lookup_insert_eq |].
    apply matches_recent_query.
    split; [apply comments_path_group | by exists (clock w)].
  - intros Hle (p & _ & Hmatch)%elem_of_exec_query.
    apply matches_recent_query in Hmatch as (_ & n & Hn & Hlt).
    rewrite Hct in Hn. injection Hn as <-. lia.
Qed.

Lemma created_comment_is_recent_witness :
  ∃ res,
    (getRecentComments
       (mkCommentsModule
          (query (collectionGroup "comments")
             [where_ "createdTime" OpGt (VNum (clock demo_world - 3 * DAY_IN_MS));
              orderBy "createdTime" Desc]))
       (create_on PostParent "p1" VNull demo_user false None None
          demo_world).2).1 = Resolved res
    ∧ (clock demo_world - 3 * DAY_IN_MS < clock demo_world →
       new_comment PostParent "p1" VNull demo_user None None demo_world ∈ res)
    ∧ ((clock demo_world ≤ clock demo_world - 3 * DAY_IN_MS)%Z →
       new_comment PostParent "p1" VNull demo_user None None demo_world ∉ res).
Proof.
  apply (created_comment_is_recent PostParent "p1" VNull demo_user false None
           None demo_world demo_world).
  - reflexivity.
  - reflexivity.
  - reflexivity.
Defined.

(** ** The slug endpoint: failures and effects *)

Lemma new_events_app (w w' : World) (es : list Event) :
  trace w' = trace w ++ es → new_events w w' = es.
Proof. unfold new_events. intros ->. apply drop_app_length. Qed.

(** X8. The handler sends at most one response, as its last action, and
    sends none when it rejects.  It resolves exactly when the slug resolves
    to nothing, or to a market whose two fetches both succeed.  It rejects
    exactly when the slug lookup rejects, in which case no fetch is started
    and the reason is the lookup's, or when the market is found and a fetch
    fails, in which case both fetches have been started and the reason is
    that of a failed fetch: of the one that failed when only one did, and of
    the one that failed first when both did. *)
Theorem handler_rejects_without_response :
  ∀ toFullMarket (req : Request) (res : Response) (w : World),
    let r := handler toFullMarket req res w in
    match r.1 with
    | Resolved sent =>
        List.filter is_response (new_events w r.2) = [EvRespond sent]
        ∧ last (trace r.2) = Some (EvRespond sent)
        ∧ (contract_of_slug w (req_slug req) = Resolved None
           ∨ ∃ c bets,
               contract_of_slug w (req_slug req) = Resolved (Some c)
               ∧ bets_of w (contract_id c) = Resolved bets
               ∧ read_refused w (comments_query (contract_id c)) = false)
    | Rejected e =>
        List.filter is_response (new_events w r.2) = []
        ∧ ((contract_of_slug w (req_slug req) = Rejected e
            ∧ new_events w r.2
              = [EvApplyCors; EvGetContractFromSlug (req_slug req)])
           ∨ ∃ c,
               contract_of_slug w (req_slug req) = Resolved (Some c)
               ∧ new_events w r.2
                 = [EvApplyCors; EvGetContractFromSlug (req_slug req);
                    EvListAllBets (contract_id c);
                    EvGetDocs (comments_query (contract_id c))]
               ∧ (bets_of w (contract_id c) = Rejected e
                  ∨ (read_refused w (comments_query (contract_id c)) = true
                     ∧ e = "read refused"))
               ∧ (read_refused w (comments_query (contract_id c)) = false →
                  bets_of w (contract_id c) = Rejected e)
               ∧ ((∃ bets, bets_of w (contract_id c) = Resolved bets) →
                  e = "read refused")
               ∧ (∀ e1, bets_of w (contract_id c) = Rejected e1 →
                        read_refused w (comments_query (contract_id c)) = true →
                        e = if first_fails_first w then e1
                            else "read refused"))
    end.
Proof.
  intros toFullMarket req res w r. subst r. rewrite handler_run. cbv zeta.
  destruct (contract_of_slug w (req_slug req)) as [[c |] | e] eqn:Hslug.
  - destruct (bets_of w (contract_id c)) as [bets | e] eqn:Hbets.
    + destruct (read_refused w (comments_query (contract_id c))) eqn:Hread.
      * cbn [fst snd].
        rewrite (new_events_app w _
                   [EvApplyCors; EvGetContractFromSlug (req_slug req);
                    EvListAllBets (contract_id c);
                    EvGetDocs (comments_query (contract_id c))])
          by (cbn [log trace]; by rewrite <- !app_assoc).
        split; [done |]. right. exists c. split; [done |]. split; [done |].
        rewrite !Hbets.
        split; [by right |]. split; [intros ?; congruence |].
        split; [done |]. by intros e1 [=].
      * unfold json. cbn [fst snd log trace].
        erewrite new_events_app
          by (cbn [log trace]; by rewrite <- !app_assoc).
        split; [done |]. split; [apply last_snoc |].
        right. by exists c, bets.
    + cbn [fst snd].
      rewrite (new_events_app w _
                 [EvApplyCors; EvGetContractFromSlug (req_slug req);
                  EvListAllBets (contract_id c);
                  EvGetDocs (comments_query (contract_id c))])
        by (cbn [log trace]; by rewrite <- !app_assoc).
      split; [done |]. right. exists c. split; [done |]. split; [done |].
      destruct (read_refused w (comments_query (contract_id c))) eqn:Hread.
      * rewrite !Hbets.
        split; [destruct (first_fails_first w); [by left | by right] |].
        split; [intros ?; congruence |]. split; [by intros [bets [=]] |].
        by intros e1 [= <-] _.
      * rewrite !Hbets. split; [by left |]. split; [done |].
        split; [by intros [bets [=]] |]. intros e1 _ ?. congruence.
  - unfold json. cbn [fst snd log trace].
    erewrite new_events_app
      by (cbn [log trace]; by rewrite <- !app_assoc).
    split; [done |]. split; [apply last_snoc |]. by left.
  - cbn [fst snd].
    rewrite (new_events_app w _
               [EvApplyCors; EvGetContractFromSlug (req_slug req)])
      by (cbn [log trace]; by rewrite <- !app_assoc).
    split; [done |]. by left.
Qed.

(** X9. The handler only reads: in every run, whatever the outcome, it
    leaves every document, every subscription and the id supply as they
    were, and it makes no write and emits no analytics event. *)
Theorem handler_is_read_only :
  ∀ toFullMarket (req : Request) (res : Response) (w : World),
    let r := handler toFullMarket req res w in
    docs r.2 = docs w
    ∧ listeners r.2 = listeners w
    ∧ ids_used r.2 = ids_used w
    ∧ Forall (λ e, is_effect e = false) (new_events w r.2).
Proof.
  intros toFullMarket req res w r. subst r. rewrite handler_run. cbv zeta.
  destruct (contract_of_slug w (req_slug req)) as [[c |] | e];
    [destruct (bets_of w (contract_id c)) as [bets | e];
     [destruct (read_refused w (comments_query (contract_id c))) |] | |];
    unfold json; cbn [fst snd log trace docs listeners ids_used];
    (split; [done |]); (split; [done |]); (split; [done |]);
    (erewrite new_events_app
       by (cbn [log trace]; by rewrite <- ?app_assoc));
    by repeat constructor.
Qed.

(** X10. In the body of the 200 response the fields of the market's
    projection take precedence: the projection is spread last, so every
    field it has, also one named [bets] or [comments], appears in the body
    with the projection's value, in place of the fetched array. *)
Theorem handler_projection_overrides :
  ∀ toFullMarket (req : Request) (res : Response) (w : World)
    (contract : Contract) (bets : list object) (k : string) (v : value),
    contract_of_slug w (req_slug req) = Resolved (Some contract) →
    bets_of w (contract_id contract) = Resolved bets →
    read_refused w (comments_query (contract_id contract)) = false →
    NoDup (toFullMarket contract).*1 →
    obj_lookup k (toFullMarket contract) = Some v →
    ∃ sent fields,
      (handler toFullMarket req res w).1 = Resolved sent
      ∧ statusCode sent = 200
      ∧ body sent = Some (VObj fields)
      ∧ obj_lookup k fields = Some v.
Proof.
  intros toFullMarket req res w contract bets k v Hslug Hbets Hread Hnd Hk.
  rewrite handler_run, Hslug. cbv zeta. rewrite Hbets, Hread.
  unfold json. cbn [fst].
  eexists _, _. split; [reflexivity |]. split; [reflexivity |].
  split; [reflexivity |]. by apply obj_lookup_spread_present.
Qed.

Lemma handler_projection_overrides_witness :
  ∃ sent fields,
    (handler shadowing_toFullMarket (mkRequest "valid-slug") new_response
       market_world).1 = Resolved sent
    ∧ statusCode sent = 200
    ∧ body sent = Some (VObj fields)
    ∧ obj_lookup "bets" fields = Some (VArr []).
Proof.
  apply (handler_projection_overrides shadowing_toFullMarket
           (mkRequest "valid-slug") new_response market_world demo_contract
           [[("id", VStr "b1"); ("amount", VNum 10)]] "bets" (VArr [])).
  - reflexivity.
  - reflexivity.
  - reflexivity.
  - apply (bool_decide_unpack _). vm_compute. exact I.
  - reflexivity.
Defined.

(** When the bets fetch fails the handler rejects with its reason, after
    both fetches were started and without a response. *)
Example handler_failing_bets :
  (handler demo_toFullMarket (mkRequest "valid-slug") new_response
     failing_world).1 = Rejected "bets unavailable"
  ∧ trace (handler demo_toFullMarket (mkRequest "valid-slug") new_response
             failing_world).2
    = [EvApplyCors; EvGetContractFromSlug "valid-slug"; EvListAllBets "c1";
       EvGetDocs (comments_query "c1")].
Proof. split; reflexivity. Qed.

(** When both fetches fail, the handler rejects with the reason of the one
    that fails first, here the comments fetch. *)
Example handler_failing_both :
  (handler demo_toFullMarket (mkRequest "valid-slug") new_response
     racing_world).1 = Rejected "read refused".
Proof. reflexivity. Qed.

(** ** Subscriptions *)

Lemma listen_on_run t parentId setComments w :
  listen_on t parentId setComments w
  = listenForValues (by_created_desc (comments_path t parentId)) setComments w.
Proof. by destruct t. Qed.

(** X11. For each parent type and each parent id that is a document
    identifier, the subscription accessor subscribes the callback to the very
    query that the one-shot listing executes, and does nothing else: no
    document is read or changed.  Whatever the store holds, that query
    selects the documents stored at [<parents>/<parentId>/comments/<id>]
    that carry a creation time, most recent first. *)
Theorem listen_on_registers_listing_query :
  ∀ t parentId (setComments : string) (w : World),
    valid_id parentId = true →
    let r := listen_on t parentId setComments w in
    ∃ q,
      r.1 = Resolved (length (listeners w))
      ∧ listeners r.2 = listeners w ++ [(q, setComments)]
      ∧ new_events w r.2 = [EvListen q setComments]
      ∧ new_events w (list_on t parentId w).2 = [EvGetDocs q]
      ∧ docs r.2 = docs w
      ∧ ∀ store : gmap Path object,
          created_desc (exec_query q store)
          ∧ ∀ d, d ∈ exec_query q store ↔
                 ∃ i, store !! comment_path t parentId i = Some d
                      ∧ is_Some (obj_lookup "createdTime" d).
Proof.
  intros t parentId setComments w _ r. subst r.
  exists (by_created_desc (comments_path t parentId)).
  set (q := by_created_desc (comments_path t parentId)).
  rewrite listen_on_run, list_on_run. fold q.
  unfold listenForValues, getValues. cbn [fst snd add_listener log listeners
    trace docs].
  split; [done |]. split; [done |].
  split; [by apply new_events_app |].
  split; [destruct (read_refused w q); by apply new_events_app |].
  split; [done |].
  intros store. split; [by apply exec_query_created_desc |].
  intros d. split.
  - intros (p & Hd & Hm)%elem_of_exec_query.
    apply matches_by_created_desc in Hm as [[i ->] Hct].
    rewrite comments_path_literal in Hd. by exists i.
  - intros (i & Hd & Hct). rewrite <- comments_path_literal in Hd.
    apply (exec_query_complete q _ _ _ eq_refl Hd).
    apply matches_by_created_desc. split; [by exists i | done].
Qed.

Lemma listen_on_registers_listing_query_witness :
  ∃ q,
    (listen_on PostParent "p1" "setComments" demo_world).1
    = Resolved (length (listeners demo_world))
    ∧ listeners (listen_on PostParent "p1" "setComments" demo_world).2
      = listeners demo_world ++ [(q, "setComments")]
    ∧ new_events demo_world
        (listen_on PostParent "p1" "setComments" demo_world).2
      = [EvListen q "setComments"]
    ∧ new_events demo_world (list_on PostParent "p1" demo_world).2
      = [EvGetDocs q]
    ∧ docs (listen_on PostParent "p1" "setComments" demo_world).2
      = docs demo_world
    ∧ ∀ store : gmap Path object,
        created_desc (exec_query q store)
        ∧ ∀ d, d ∈ exec_query q store ↔
               ∃ i, store !! comment_path PostParent "p1" i = Some d
                    ∧ is_Some (obj_lookup "createdTime" d).
Proof.
  apply (listen_on_registers_listing_query PostParent "p1" "setComments"
           demo_world).
  reflexivity.
Defined.

Lemma matches_all_comments (p : Path) (d : object) :
  matches all_comments_query (p, d) = true
  ↔ (∃ parent i, p = parent ++ ["comments"; i])
    ∧ is_Some (obj_lookup "createdTime" d).
Proof.
  unfold matches, has_fields.
  cbn [all_comments_query query fold_left add_constraint orderBy
       collectionGroup q_source q_filters q_orders forallb fst snd app].
  rewrite !andb_true_r, andb_true_iff, in_collection_group,
    bool_decide_eq_true.
  reflexivity.
Qed.

(** X12. With a positive count the live-comments accessor subscribes the
    callback to one query over the comment collections of all parents, of
    any type and any age: whatever the store holds, that query yields the
    first [count] of all comments in descending creation-time order, never
    more than [count]. *)
Theorem listenForLiveComments_bounded :
  ∀ (count : Z) (setComments : string) (w : World),
    0 < count →
    let r := listenForLiveComments count setComments w in
    ∃ q,
      r.1 = Resolved (length (listeners w))
      ∧ listeners r.2 = listeners w ++ [(q, setComments)]
      ∧ docs r.2 = docs w
      ∧ ∀ store : gmap Path object,
          exec_query q store
          = take (Z.to_nat count) (exec_query all_comments_query store)
          ∧ (Z.of_nat (length (exec_query q store)) ≤ count)%Z
          ∧ created_desc (exec_query q store)
          ∧ ∀ d, d ∈ exec_query all_comments_query store ↔
                 ∃ parent i,
                   store !! (parent ++ ["comments"; i]) = Some d
                   ∧ is_Some (obj_lookup "createdTime" d).
Proof.
  intros count setComments w Hpos r. subst r.
  unfold listenForLiveComments, bind, limit.
  destruct (Z.leb_spec count 0) as [? | _]; [lia |].
  unfold ret, listenForValues. cbn [fst snd add_listener log listeners docs].
  eexists. split; [reflexivity |]. split; [reflexivity |].
  split; [reflexivity |].
  intros store. split; [reflexivity |].
  split.
  { change (exec_query _ store)
      with (take (Z.to_nat count) (exec_query all_comments_query store)).
    rewrite length_take. lia. }
  split; [by apply exec_query_created_desc |].
  intros d. split.
  - intros (p & Hd & Hm)%elem_of_exec_query.
    apply matches_all_comments in Hm as [(parent & i & ->) Hct].
    by exists parent, i.
  - intros (parent & i & Hd & Hct).
    apply (exec_query_complete all_comments_query _ _ _ eq_refl Hd).
    apply matches_all_comments. split; [by exists parent, i | done].
Qed.

Lemma listenForLiveComments_bounded_witness :
  ∃ q,
    (listenForLiveComments 2 "setComments" mixed_world).1
    = Resolved (length (listeners mixed_world))
    ∧ listeners (listenForLiveComments 2 "setComments" mixed_world).2
      = listeners mixed_world ++ [(q, "setComments")]
    ∧ docs (listenForLiveComments 2 "setComments" mixed_world).2
      = docs mixed_world
    ∧ ∀ store : gmap Path object,
        exec_query q store
        = take (Z.to_nat 2) (exec_query all_comments_query store)
        ∧ (Z.of_nat (length (exec_query q store)) ≤ 2)%Z
        ∧ created_desc (exec_query q store)
        ∧ ∀ d, d ∈ exec_query all_comments_query store ↔
               ∃ parent i,
                 store !! (parent ++ ["comments"; i]) = Some d
                 ∧ is_Some (obj_lookup "createdTime" d).
Proof.
  apply (listenForLiveComments_bounded 2 "setComments" mixed_world). lia.
Defined.

(** The two most recent of the three comments of [mixed_world], across the
    parent types. *)
Example live_comments_mixed :
  exec_query
    (query (collectionGroup "comments") [orderBy "createdTime" Desc; CLimit 2])
    (docs mixed_world)
  = [[("id", VStr "z"); ("userId", VStr "u2"); ("createdTime", VNum 8);
      ("commentType", VStr "contract"); ("contractId", VStr "c2")];
     [("id", VStr "y"); ("userId", VStr "u1"); ("createdTime", VNum 6);
      ("commentType", VStr "group"); ("groupId", VStr "g1")]].
Proof. by vm_compute. Qed.

(** ** The written record, field by field *)

Lemma removeUndefinedProps_NoDup (o : object) :
  NoDup o.*1 → NoDup (removeUndefinedProps o).*1.
Proof.
  induction o as [| [k v] o IH]; simpl; [done |].
  intros [Hk Hnd]%NoDup_cons. destruct (is_undefined v); simpl; [auto |].
  apply NoDup_cons. split; [| auto].
  intros (kv & Hkv & Hin)%list_elem_of_fmap. apply Hk.
  apply list_elem_of_fmap. exists kv. split; [done |].
  apply list_elem_of_In. apply list_elem_of_In, filter_In in Hin. tauto.
Qed.

(** The fields of the record that an entry point hands to the write. *)
Lemma new_comment_fields :
  ∀ t parentId content user answer reply (w : World),
    let c := new_comment t parentId content user answer reply w in
    NoDup c.*1
    ∧ obj_lookup "id" c = Some (VStr (auto_id w (ids_used w)))
    ∧ obj_lookup "createdTime" c = Some (VNum (clock w))
    ∧ obj_lookup "content" c = defined content
    ∧ obj_lookup "userId" c = defined (obj_get "id" user)
    ∧ obj_lookup "userName" c = defined (obj_get "name" user)
    ∧ obj_lookup "userUsername" c = defined (obj_get "username" user)
    ∧ obj_lookup "userAvatarUrl" c = defined (obj_get "avatarUrl" user)
    ∧ obj_lookup "replyToCommentId" c = VStr <$> reply
    ∧ obj_lookup "commentType" c = Some (VStr (parent_tag t))
    ∧ obj_lookup (parent_field t) c = Some (VStr parentId)
    ∧ (∀ t', t' ≠ t → obj_lookup (parent_field t') c = None)
    ∧ obj_lookup "answerOutcome" c
      = match t with ContractParent => VStr <$> answer | _ => None end.
Proof.
  intros t parentId content user answer reply w c.
  split.
  { apply removeUndefinedProps_NoDup, assembled_comment_NoDup. }
  unfold c, new_comment, defined.
  split; [apply written_comment_id |].
  split; [apply written_comment_createdTime |].
  split; [rewrite written_comment_lookup; by destruct t |].
  split; [rewrite written_comment_lookup; by destruct t |].
  split; [rewrite written_comment_lookup; by destruct t |].
  split; [rewrite written_comment_lookup; by destruct t |].
  split; [rewrite written_comment_lookup; by destruct t |].
  split; [rewrite written_comment_lookup; by destruct t, reply |].
  split; [apply new_comment_tag |].
  split; [apply new_comment_parent |].
  split.
  - intros t' Hne. rewrite written_comment_lookup.
    destruct t, t'; try done; by destruct answer.
  - rewrite written_comment_lookup. destruct t; try done. by destruct answer.
Qed.

(** X13. For a parent id that is a document identifier, the record that an
    entry point hands to the write at
    [<parents>/<parentId>/comments/<new id>], which is the record stored
    there when the write is accepted, has each field once; it carries the
    content, the author's id, name, username and avatar URL and the reply
    target as they were given, each exactly when it is defined, the new id,
    the clock reading as creation time, and the tag fields of its own parent
    type only: the parent-id field of another parent type is never present,
    and [answerOutcome] only on a market comment created with one.  The tag
    fields, spread last, replace none of the common fields. *)
Theorem create_on_written_fields :
  ∀ t parentId content user bounty answer reply (w : World),
    valid_id parentId = true →
    let r := create_on t parentId content user bounty answer reply w in
    let path := comment_path t parentId (auto_id w (ids_used w)) in
    ∃ c,
      last (trace r.2) = Some (EvSetDoc path c)
      ∧ (r.1 = Resolved tt → docs r.2 !! path = Some c)
      ∧ NoDup c.*1
      ∧ obj_lookup "id" c = Some (VStr (auto_id w (ids_used w)))
      ∧ obj_lookup "createdTime" c = Some (VNum (clock w))
      ∧ obj_lookup "content" c = defined content
      ∧ obj_lookup "userId" c = defined (obj_get "id" user)
      ∧ obj_lookup "userName" c = defined (obj_get "name" user)
      ∧ obj_lookup "userUsername" c = defined (obj_get "username" user)
      ∧ obj_lookup "userAvatarUrl" c = defined (obj_get "avatarUrl" user)
      ∧ obj_lookup "replyToCommentId" c = VStr <$> reply
      ∧ obj_lookup "commentType" c = Some (VStr (parent_tag t))
      ∧ obj_lookup (parent_field t) c = Some (VStr parentId)
      ∧ (∀ t', t' ≠ t → obj_lookup (parent_field t') c = None)
      ∧ obj_lookup "answerOutcome" c
        = match t with ContractParent => VStr <$> answer | _ => None end.
Proof.
  intros t parentId content user bounty answer reply w _ r path.
  exists (new_comment t parentId content user answer reply w).
  subst r. rewrite create_on_outcome. cbv zeta.
  change (ref_path (new_ref t parentId w))
    with (comments_path t parentId ++ [auto_id w (ids_used w)]).
  rewrite comments_path_literal. fold path.
  split.
  { destruct (write_refused w path _); cbn [snd log put_doc trace];
      apply last_snoc. }
  split.
  { destruct (write_refused w path _); cbn [fst snd log put_doc docs];
      [done | intros _; apply lookup_insert_eq]. }
  apply new_comment_fields.
Qed.

Lemma create_on_written_fields_witness :
  ∃ c,
    last (trace (create_on ContractParent "c1" VNull demo_user true
                   (Some "YES") None demo_world).2)
    = Some (EvSetDoc (comment_path ContractParent "c1" "a") c)
    ∧ ((create_on ContractParent "c1" VNull demo_user true (Some "YES") None
          demo_world).1 = Resolved tt →
       docs (create_on ContractParent "c1" VNull demo_user true (Some "YES")
               None demo_world).2
         !! comment_path ContractParent "c1" "a" = Some c)
    ∧ NoDup c.*1
    ∧ obj_lookup "id" c = Some (VStr "a")
    ∧ obj_lookup "createdTime" c = Some (VNum 5)
    ∧ obj_lookup "content" c = defined VNull
    ∧ obj_lookup "userId" c = defined (obj_get "id" demo_user)
    ∧ obj_lookup "userName" c = defined (obj_get "name" demo_user)
    ∧ obj_lookup "userUsername" c = defined (obj_get "username" demo_user)
    ∧ obj_lookup "userAvatarUrl" c = defined (obj_get "avatarUrl" demo_user)
    ∧ obj_lookup "replyToCommentId" c = VStr <$> None
    ∧ obj_lookup "commentType" c = Some (VStr (parent_tag ContractParent))
    ∧ obj_lookup (parent_field ContractParent) c = Some (VStr "c1")
    ∧ (∀ t', t' ≠ ContractParent → obj_lookup (parent_field t') c = None)
    ∧ obj_lookup "answerOutcome" c = VStr <$> Some "YES".
Proof.
  apply (create_on_written_fields ContractParent "c1" VNull demo_user true
           (Some "YES") None demo_world).
  reflexivity.
Defined.

(** The record that [createCommentOnContract] stores for a user without an
    avatar, with an answer outcome and no reply target. *)
Example created_contract_comment :
  docs (create_on ContractParent "c1" VNull demo_user true (Some "YES") None
          demo_world).2
    !! ["contracts"; "c1"; "comments"; "a"]
  = Some [("id", VStr "a"); ("userId", VStr "u1"); ("content", VNull);
          ("createdTime", VNum 5); ("userName", VStr "Ann");
          ("userUsername", VStr "ann"); ("commentType", VStr "contract");
          ("contractId", VStr "c1"); ("answerOutcome", VStr "YES")].
Proof. by vm_compute. Qed.

(** ** Growing the maximum count *)

(** X14. Raising the maximum count of [listAllComments] only extends the
    result: for positive counts [N ≤ M] the result for [N] is the first [N]
    of the result for [M]; and once the count reaches the number of the
    market's comments the result is the whole unbounded listing. *)
Theorem listAllComments_monotone :
  ∀ (contractId : string) (N M : Z) (w : World),
    0 < N → (N ≤ M)%Z →
    read_refused w (query (comments_query contractId) [CLimit N]) = false →
    read_refused w (query (comments_query contractId) [CLimit M]) = false →
    read_refused w (comments_query contractId) = false →
    ∃ resN resM all,
      (listAllComments contractId (Some N) w).1 = Resolved resN
      ∧ (listAllComments contractId (Some M) w).1 = Resolved resM
      ∧ (listAllComments contractId None w).1 = Resolved all
      ∧ resN = take (Z.to_nat N) resM
      ∧ ((Z.of_nat (length all) ≤ N)%Z → resN = all).
Proof.
  intros contractId N M w HN HNM HrN HrM Hr.
  assert (Hrun : ∀ K, 0 < K →
            read_refused w (query (comments_query contractId) [CLimit K]) = false →
            (listAllComments contractId (Some K) w).1
            = Resolved (take (Z.to_nat K)
                          (exec_query (comments_query contractId) (docs w)))).
  { intros K HK HrK. unfold listAllComments, truthy.
    fold (comments_query contractId).
    destruct (Z.eqb_spec K 0) as [-> | _]; [lia |]. cbn [negb].
    unfold bind, limit. destruct (Z.leb_spec K 0) as [? | _]; [lia |].
    unfold ret, getValues. by rewrite HrK. }
  eexists _, _, _.
  split; [by apply Hrun |]. split; [apply Hrun; [lia | done] |].
  split.
  { unfold listAllComments, bind, ret, getValues.
    fold (comments_query contractId). by rewrite Hr. }
  split.
  - rewrite take_take. f_equal. lia.
  - intros Hlen. apply take_ge. lia.
Qed.

Lemma listAllComments_monotone_witness :
  ∃ resN resM all,
    (listAllComments "c1" (Some 1) tie_world).1 = Resolved resN
    ∧ (listAllComments "c1" (Some 3) tie_world).1 = Resolved resM
    ∧ (listAllComments "c1" None tie_world).1 = Resolved all
    ∧ resN = take (Z.to_nat 1) resM
    ∧ ((Z.of_nat (length all) ≤ 1)%Z → resN = all).
Proof.
  apply (listAllComments_monotone "c1" 1 3 tie_world);
    [lia | lia | reflexivity ..].
Defined.
